(** * The pipeline core: plugin contract, context, pipeline executor, registry

    A shallow embedding of package [core] (plugin.go, context.go,
    pipeline.go, registry.go).  Go values of type [any] are kept abstract,
    Go's [int] is [Z], [map[string]T] is [gmap string T], slices are lists.
    Methods with a pointer receiver are state transformers over the
    receiver; the plugin loop of [Pipeline.Execute] threads one machine
    state that holds the pipeline, the world the plugins act on and a ghost
    log of the indices of the plugins that were invoked. *)

From Stdlib Require Import ZArith List Sorted.
From stdpp Require Import gmap strings list fin_maps.

(** ** A small state monad *)

Definition M (S A : Type) : Type := S -> A * S.

Definition ret {S A : Type} (a : A) : M S A := fun s => (a, s).

Definition bind {S A B : Type} (m : M S A) (k : A -> M S B) : M S B :=
  fun s => let (a, s1) := m s in k a s1.

Definition gets {S A : Type} (f : S -> A) : M S A := fun s => (f s, s).

Definition modify {S : Type} (f : S -> S) : M S unit := fun s => (tt, f s).

Declare Scope monad_scope.
Delimit Scope monad_scope with monad.
Notation "x <- m ;; k" := (bind m (fun x => k))
  (at level 100, m at next level, right associativity) : monad_scope.
Notation "m ;; k" := (bind m (fun _ => k))
  (at level 100, right associativity) : monad_scope.

(** ** Errors

    Go's [error] values, by the way the core builds them.  The message
    texts of [Error()] are not modelled, only what each value carries. *)

Inductive error : Type :=
  (** a plugin's own failure, opaque to the core *)
  | PluginFailure (msg : string)
  (** [&PipelineError{PluginIndex: i, Err: err}] *)
  | PipelineError (PluginIndex : Z) (Err : error)
  (** [Registry.Register]: plugin NAME is already registered *)
  | ErrAlreadyRegistered (name : string)
  (** [Registry.Get]: plugin NAME not found in registry *)
  | ErrNotFound (name : string)
  (** [Registry.BuildPipeline]: failed to build pipeline, wrapping [err]
      with the verb %w *)
  | ErrBuildPipeline (err : error).

(** [errors.Unwrap]: [PipelineError.Unwrap] returns the field [Err]; an
    error made with %w unwraps to its operand; the others have no
    [Unwrap] method. *)
Definition Unwrap (e : error) : option error :=
  match e with
  | PipelineError _ err => Some err
  | ErrBuildPipeline err => Some err
  | _ => None
  end.

(** The field [PluginIndex] of a [*PipelineError]. *)
Definition PluginIndex (e : error) : option Z :=
  match e with
  | PipelineError i _ => Some i
  | _ => None
  end.

(** [ErrorStrategy]: [AbortOnError] is iota, [ContinueOnError] follows. *)
Inductive ErrorStrategy : Type := AbortOnError | ContinueOnError.

(** A Go result pair [(T, error)] of which exactly one side is non-nil:
    [(a, nil)] is [Ok a] and [(nil, err)] is [Fail err]. *)
Inductive result (A : Type) : Type :=
  | Ok (a : A)
  | Fail (err : error).
Arguments Ok {A} a.
Arguments Fail {A} err.

(** The left side of the pair, [None] for nil. *)
Definition value {A : Type} (r : result A) : option A :=
  match r with Ok a => Some a | Fail _ => None end.

(** The right side of the pair, [None] for nil. *)
Definition failure {A : Type} (r : result A) : option error :=
  match r with Ok _ => None | Fail err => Some err end.

Section Core.

(** The values a context carries, with Go's untyped [nil]. *)
Variable any : Type.
Variable nilAny : any.
(** Whatever a plugin can reach besides the context it is handed: its
    own fields, counters, captured variables. *)
Variable Ext : Type.

(** *** context.go

    A context as [NewContext] makes it and the methods keep it: both maps
    are allocated, so writing a key never panics. *)

Record Context : Type := mkContext {
  Data : any;
  Metadata : gmap string any;
  Errors : list error;
  state : gmap string any
}.

Definition NewContext (data : any) : Context :=
  {| Data := data; Metadata := ∅; Errors := []; state := ∅ |}.

Definition Context_Set (c : Context) (key : string) (value : any) : Context :=
  {| Data := Data c; Metadata := <[key := value]> (Metadata c);
     Errors := Errors c; state := state c |}.

Definition Context_Get (c : Context) (key : string) : any * bool :=
  match Metadata c !! key with
  | Some value => (value, true)
  | None => (nilAny, false)
  end.

Definition SetData (c : Context) (data : any) : Context :=
  {| Data := data; Metadata := Metadata c;
     Errors := Errors c; state := state c |}.

Definition GetData (c : Context) : any := Data c.

Definition SetState (c : Context) (key : string) (value : any) : Context :=
  {| Data := Data c; Metadata := Metadata c;
     Errors := Errors c; state := <[key := value]> (state c) |}.

Definition GetState (c : Context) (key : string) : any * bool :=
  match state c !! key with
  | Some value => (value, true)
  | None => (nilAny, false)
  end.

Definition AddError (c : Context) (err : error) : Context :=
  {| Data := Data c; Metadata := Metadata c;
     Errors := Errors c ++ [err]; state := state c |}.

(** *** plugin.go *)

Record World : Type := mkWorld { ctx : Context; ext : Ext }.

(** [Plugin.Execute(ctx *Context) error]: the context after the call,
    the plugin's surroundings after the call, and the error or nil. *)
Definition Plugin : Type := World -> World * option error.

(** *** pipeline.go *)

Record Pipeline : Type := mkPipeline {
  plugins : list Plugin;
  errorStrategy : ErrorStrategy
}.

Definition NewPipeline (strategy : ErrorStrategy) : Pipeline :=
  {| plugins := []; errorStrategy := strategy |}.

(** [Use] appends and returns the receiver. *)
Definition Use (p : Pipeline) (plugin : Plugin) : Pipeline :=
  {| plugins := plugins p ++ [plugin]; errorStrategy := errorStrategy p |}.

Record Machine : Type := mkMachine {
  pipe : Pipeline;
  world : World;
  (** ghost: indices of the plugins whose [Execute] was called, oldest
      first *)
  invoked : list Z
}.

Definition boot (p : Pipeline) (w : World) : Machine :=
  {| pipe := p; world := w; invoked := [] |}.

(** [plugin.Execute(ctx)] at loop index [i]. *)
Definition call (i : Z) (plugin : Plugin) : M Machine (option error) :=
  fun m =>
    let (w1, err) := plugin (world m) in
    (err, {| pipe := pipe m; world := w1; invoked := invoked m ++ [i] |}).

(** [ctx.AddError(err)] *)
Definition ctxAddError (err : error) : M Machine unit :=
  modify (fun m =>
    {| pipe := pipe m;
       world := {| ctx := AddError (ctx (world m)) err;
                   ext := ext (world m) |};
       invoked := invoked m |}).

(** The body of [for i, plugin := range p.plugins], from index [i] on
    the rest [ps] of the slice read when the loop started. *)
Fixpoint Execute_loop (i : Z) (ps : list Plugin)
  : M Machine (option error) :=
  match ps with
  | [] => ret None
  | plugin :: rest =>
      (err <- call i plugin ;;
       match err with
       | Some e =>
           strategy <- gets (fun m => errorStrategy (pipe m)) ;;
           match strategy with
           | AbortOnError => ret (Some (PipelineError i e))
           | ContinueOnError =>
               ctxAddError (PipelineError i e) ;;
               Execute_loop (i + 1) rest
           end
       | None => Execute_loop (i + 1) rest
       end)%monad
  end.

Definition Execute : M Machine (option error) :=
  fun m => Execute_loop 0 (plugins (pipe m)) m.

(** *** registry.go

    A registry as [NewRegistry] makes it: the map is allocated.  The lock
    [mu] is taken and released inside each method and is not modelled.
    Plugins are implementations of the interface, never the nil
    interface value. *)

Record Registry : Type := mkRegistry {
  reg_plugins : gmap string Plugin
}.

Definition NewRegistry : Registry := {| reg_plugins := ∅ |}.

Definition Register (name : string) (plugin : Plugin)
  : M Registry (option error) :=
  fun r =>
    match reg_plugins r !! name with
    | Some _ => (Some (ErrAlreadyRegistered name), r)
    | None => (None, {| reg_plugins := <[name := plugin]> (reg_plugins r) |})
    end.

Definition Get (name : string) : M Registry (result Plugin) :=
  fun r =>
    match reg_plugins r !! name with
    | None => (Fail (ErrNotFound name), r)
    | Some plugin => (Ok plugin, r)
    end.

(** The loop of [BuildPipeline] over the names left, with the pipeline
    built so far. *)
Fixpoint BuildPipeline_loop (names : list string) (pipeline : Pipeline)
  : M Registry (result Pipeline) :=
  match names with
  | [] => ret (Ok pipeline)
  | name :: rest =>
      (res <- Get name ;;
       match res with
       | Fail err => ret (Fail (ErrBuildPipeline err))
       | Ok plugin => BuildPipeline_loop rest (Use pipeline plugin)
       end)%monad
  end.

Definition BuildPipeline (names : list string) (strategy : ErrorStrategy)
  : M Registry (result Pipeline) :=
  BuildPipeline_loop names (NewPipeline strategy).

(** *** Vocabulary of the statements *)

(** The loop indices [i], [i + 1], ..., [i + n - 1]. *)
Fixpoint indices (i : Z) (n : nat) : list Z :=
  match n with
  | O => []
  | S n' => i :: indices (i + 1) n'
  end.

(** The world after the plugins [ps] ran one after the other, each on what
    the one before left, provided every one of them returned nil. *)
Fixpoint run_ok (ps : list Plugin) (w : World) : option World :=
  match ps with
  | [] => Some w
  | plugin :: rest =>
      match plugin w with
      | (w1, None) => run_ok rest w1
      | (_, Some _) => None
      end
  end.

(** What the core records for plugin [i] failing with [e]. *)
Definition wrap (f : Z * error) : error := PipelineError (fst f) (snd f).

Definition record_failure (f : Z * error) (w : World) : World :=
  {| ctx := AddError (ctx w) (wrap f); ext := ext w |}.

(** The plugins that fail when every plugin of [ps] runs in turn from
    loop index [i] and each failure is recorded in the context before the
    next plugin runs: the index of each with the failure it returned. *)
Fixpoint failures (i : Z) (ps : list Plugin) (w : World) : list (Z * error) :=
  match ps with
  | [] => []
  | plugin :: rest =>
      match plugin w with
      | (w1, None) => failures (i + 1) rest w1
      | (w1, Some e) => (i, e) :: failures (i + 1) rest (record_failure (i, e) w1)
      end
  end.

(** A plugin that leaves the field [Errors] of the context as it found
    it. *)
Definition keeps_errors (plugin : Plugin) : Prop :=
  forall w : World, Errors (ctx (fst (plugin w))) = Errors (ctx w).

End Core.

Arguments Data {any} c.
Arguments Metadata {any} c.
Arguments Errors {any} c.
Arguments state {any} c.
Arguments mkContext {any} Data Metadata Errors state.
Arguments NewContext {any} data.
Arguments Context_Set {any} c key value.
Arguments Context_Get {any} nilAny c key.
Arguments SetData {any} c data.
Arguments GetData {any} c.
Arguments SetState {any} c key value.
Arguments GetState {any} nilAny c key.
Arguments AddError {any} c err.
Arguments ctx {any Ext} w.
Arguments ext {any Ext} w.
Arguments mkWorld {any Ext} ctx ext.
Arguments plugins {any Ext} p.
Arguments errorStrategy {any Ext} p.
Arguments mkPipeline {any Ext} plugins errorStrategy.
Arguments NewPipeline {any Ext} strategy.
Arguments Use {any Ext} p plugin.
Arguments pipe {any Ext} m.
Arguments world {any Ext} m.
Arguments invoked {any Ext} m.
Arguments mkMachine {any Ext} pipe world invoked.
Arguments boot {any Ext} p w.
Arguments call {any Ext} i plugin.
Arguments ctxAddError {any Ext} err.
Arguments Execute_loop {any Ext} i ps.
Arguments Execute {any Ext}.
Arguments reg_plugins {any Ext} r.
Arguments mkRegistry {any Ext} reg_plugins.
Arguments NewRegistry {any Ext}.
Arguments Register {any Ext} name plugin.
Arguments Get {any Ext} name.
Arguments BuildPipeline_loop {any Ext} names pipeline.
Arguments BuildPipeline {any Ext} names strategy.
Arguments run_ok {any Ext} ps w.
Arguments record_failure {any Ext} f w.
Arguments failures {any Ext} i ps w.
Arguments keeps_errors {any Ext} plugin.

(** ** Plugins as Go lets them be

    The plugins above act on the context and their own surroundings and
    return.  A Go plugin can do two things more: it can panic, and it can
    hold the [*Pipeline] it runs in and call the public method [Use] on
    it while [Execute] is in its loop.  This is the same executor for such
    plugins.  A call of a plugin gives the world it leaves, whether it
    returned (an error or nil) or panicked, and the plugins it appended to
    the pipeline with [Use], in the order of its calls.  The loop ranges
    over the slice read when it started, so what a plugin appends is not
    run in the same [Execute]; a panic is not recovered and ends
    [Execute] at once, under either strategy. *)

(** How a call ends: it returns an error or nil, or it panics. *)
Inductive outcome : Type :=
  | Returned (err : option error)
  | Panicked.

(** The error a call returned, if it returned one. *)
Definition returned_error (o : outcome) : option error :=
  match o with
  | Returned err => err
  | Panicked => None
  end.

Section General.

Variable any : Type.
Variable Ext : Type.

#[warnings="-register-all"]
Inductive GPlugin : Type :=
  | GP (exec : World any Ext -> World any Ext * outcome * list GPlugin).

Definition gexec (q : GPlugin)
  : World any Ext -> World any Ext * outcome * list GPlugin :=
  match q with GP exec => exec end.

Record GPipeline : Type := mkGPipeline {
  gplugins : list GPlugin;
  gstrategy : ErrorStrategy
}.

(** [NewPipeline] *)
Definition GNewPipeline (strategy : ErrorStrategy) : GPipeline :=
  {| gplugins := []; gstrategy := strategy |}.

(** [Use] *)
Definition GUse (p : GPipeline) (plugin : GPlugin) : GPipeline :=
  {| gplugins := gplugins p ++ [plugin]; gstrategy := gstrategy p |}.

Record GMachine : Type := mkGMachine {
  gpipe : GPipeline;
  gworld : World any Ext;
  (** ghost: indices of the plugins whose [Execute] was called *)
  ginvoked : list Z
}.

Definition gboot (p : GPipeline) (w : World any Ext) : GMachine :=
  {| gpipe := p; gworld := w; ginvoked := [] |}.

(** [plugin.Execute(ctx)] at loop index [i]: the plugin's calls of [Use]
    have appended to the pipeline by the time it ends. *)
Definition gcall (i : Z) (plugin : GPlugin) : M GMachine outcome :=
  fun m =>
    let '(w1, out, added) := gexec plugin (gworld m) in
    (out,
     {| gpipe := fold_left GUse added (gpipe m);
        gworld := w1;
        ginvoked := ginvoked m ++ [i] |}).

(** [ctx.AddError(err)] *)
Definition gctxAddError (err : error) : M GMachine unit :=
  modify (fun m =>
    {| gpipe := gpipe m;
       gworld := {| ctx := AddError (ctx (gworld m)) err;
                    ext := ext (gworld m) |};
       ginvoked := ginvoked m |}).

(** The loop of [Pipeline.Execute] from index [i] on the rest [ps] of the
    slice read when the loop started. *)
Fixpoint GExecute_loop (i : Z) (ps : list GPlugin) : M GMachine outcome :=
  match ps with
  | [] => ret (Returned None)
  | plugin :: rest =>
      (out <- gcall i plugin ;;
       match out with
       | Panicked => ret Panicked
       | Returned (Some e) =>
           strategy <- gets (fun m => gstrategy (gpipe m)) ;;
           match strategy with
           | AbortOnError => ret (Returned (Some (PipelineError i e)))
           | ContinueOnError =>
               gctxAddError (PipelineError i e) ;;
               GExecute_loop (i + 1) rest
           end
       | Returned None => GExecute_loop (i + 1) rest
       end)%monad
  end.

Definition GExecute : M GMachine outcome :=
  fun m => GExecute_loop 0 (gplugins (gpipe m)) m.

(** A plugin of the first kind as one of these: it returns, and appends
    nothing. *)
Definition glift (q : Plugin any Ext) : GPlugin :=
  GP (fun w => (fst (q w), Returned (snd (q w)), [])).

Definition gpipeline_of (p : Pipeline any Ext) : GPipeline :=
  {| gplugins := map glift (plugins p); gstrategy := errorStrategy p |}.

Definition gmachine_of (m : Machine any Ext) : GMachine :=
  {| gpipe := gpipeline_of (pipe m);
     gworld := world m;
     ginvoked := invoked m |}.

(** A plugin that never calls [Use] on the pipeline it runs in. *)
Definition quiet (q : GPlugin) : Prop :=
  forall w : World any Ext, snd (gexec q w) = [].

End General.

Arguments GP {any Ext} exec.
Arguments gexec {any Ext} q.
Arguments gplugins {any Ext} g.
Arguments gstrategy {any Ext} g.
Arguments mkGPipeline {any Ext} gplugins gstrategy.
Arguments GNewPipeline {any Ext} strategy.
Arguments GUse {any Ext} p plugin.
Arguments gpipe {any Ext} g.
Arguments gworld {any Ext} g.
Arguments ginvoked {any Ext} g.
Arguments mkGMachine {any Ext} gpipe gworld ginvoked.
Arguments gboot {any Ext} p w.
Arguments gcall {any Ext} i plugin.
Arguments gctxAddError {any Ext} err.
Arguments GExecute_loop {any Ext} i ps.
Arguments GExecute {any Ext}.
Arguments glift {any Ext} q.
Arguments gpipeline_of {any Ext} p.
Arguments gmachine_of {any Ext} m.
Arguments quiet {any Ext} q.

(** ** Sample plugins

    Contexts over strings, with a natural number for the plugins'
    surroundings (a shared counter). *)

Definition SWorld : Type := World string nat.
Definition SPlugin : Type := Plugin string nat.

(** Replaces the data by a greeting of it; never fails. *)
Definition greet : SPlugin :=
  fun w =>
    ({| ctx := SetData (ctx w) ("Hello, " ++ Data (ctx w) ++ "!")%string;
        ext := ext w |}, None).

(** Always fails with [boom], touching nothing. *)
Definition boom : SPlugin :=
  fun w => (w, Some (PluginFailure "boom")).

(** Increments the shared counter; never fails. *)
Definition tick : SPlugin :=
  fun w => ({| ctx := ctx w; ext := S (ext w) |}, None).

(** Puts a note of its own in the context's errors and reports success. *)
Definition tattle : SPlugin :=
  fun w =>
    ({| ctx := AddError (ctx w) (PluginFailure "note"); ext := ext w |}, None).

(** Sets the metadata key [key] to [v]; never fails. *)
Definition mark (key v : string) : SPlugin :=
  fun w => ({| ctx := Context_Set (ctx w) key v; ext := ext w |}, None).

(** A fresh context around [data], counter at zero. *)
Definition fresh (data : string) : SWorld :=
  {| ctx := NewContext data; ext := O |}.

(** Greets, then fails, then would count: stops at the failure. *)
Definition strict_pipeline : Pipeline string nat :=
  Use (Use (Use (NewPipeline AbortOnError) greet) boom) tick.

(** Fails, counts, fails again: goes on past the failures. *)
Definition lenient_pipeline : Pipeline string nat :=
  Use (Use (Use (NewPipeline ContinueOnError) boom) tick) boom.

(** A single plugin that writes the context's errors itself. *)
Definition tattle_pipeline : Pipeline string nat :=
  Use (NewPipeline ContinueOnError) tattle.

(** Plugins that all succeed. *)
Definition happy_plugins : list SPlugin :=
  [greet; tick; mark "seen" "yes"].

(** A registry with [greet] under the name a and [tick] under b. *)
Definition sample_registry : Registry string nat :=
  snd (Register "b" tick (snd (Register "a" greet NewRegistry))).

(** Holds the pipeline it runs in and appends [tick] to it with [Use],
    then returns nil. *)
Definition recruit : GPlugin string nat :=
  GP (fun w => (w, Returned None, [glift tick])).

(** A pipeline of [recruit] alone. *)
Definition recruiting_pipeline : GPipeline string nat :=
  GUse (GNewPipeline AbortOnError) recruit.

(** ** Sequences of calls

    Several calls of one method in a row, for statements about what a
    caller sees after them. *)

(** [c.Set(k, v)] for each pair of [kvs], first to last. *)
Definition set_all {any : Type} (kvs : list (string * any)) (c : Context any)
  : Context any :=
  fold_left (fun c kv => Context_Set c (fst kv) (snd kv)) kvs c.

(** [c.SetState(k, v)] for each pair of [kvs], first to last. *)
Definition setstate_all {any : Type} (kvs : list (string * any))
  (c : Context any) : Context any :=
  fold_left (fun c kv => SetState c (fst kv) (snd kv)) kvs c.

(** The value of the last pair of [kvs] whose key is [k]. *)
Definition last_set {any : Type} (kvs : list (string * any)) (k : string)
  : option any :=
  snd <$> find (fun kv => bool_decide (fst kv = k)) (rev kvs).

(** [c.AddError(err)] for each error of [errs], first to last. *)
Definition add_errors {any : Type} (errs : list error) (c : Context any)
  : Context any :=
  fold_left AddError errs c.

(** [r.Register(name, plugin)] for each pair of [l], first to last, the
    returned errors dropped. *)
Definition register_all {any Ext : Type}
  (l : list (string * Plugin any Ext)) (r : Registry any Ext)
  : Registry any Ext :=
  fold_left (fun r np => snd (Register (fst np) (snd np) r)) l r.

(** The plugin of the first pair of [l] whose name is [name]. *)
Definition first_bound {any Ext : Type}
  (l : list (string * Plugin any Ext)) (name : string)
  : option (Plugin any Ext) :=
  snd <$> find (fun np => bool_decide (fst np = name)) l.

(** The machine [m] seen from the pipeline [p]: same world, same log. *)
Definition with_pipe {any Ext : Type} (p : Pipeline any Ext)
  (m : Machine any Ext) : Machine any Ext :=
  {| pipe := p; world := world m; invoked := invoked m |}.

(** ** Package chatbot: the conversation state plugin

    models.go and the [ContextManagerPlugin] of plugins.go.  Go's
    [float64] is the primitive binary64 [float]; a [time.Time] is only
    copied and is kept as a number. *)

From Stdlib Require Import Floats.

Module chatbot.

Record Message : Type := mkMessage {
  Text : string;
  UserID : string;
  SessionID : string;
  Timestamp : Z
}.

(** The field [Type] is [Type_] here. *)
Record Intent : Type := mkIntent {
  Type_ : string;
  Confidence : float
}.

(** [ConversationState] over the values [V] that [UserPrefs] holds. *)
Record ConversationState (V : Type) : Type := mkConversationState {
  History : list Message;
  UserPrefs : gmap string V;
  LastIntent : Intent
}.
Arguments mkConversationState {V} History UserPrefs LastIntent.
Arguments History {V} c.
Arguments UserPrefs {V} c.
Arguments LastIntent {V} c.

Set Warnings "-register-all".

(** The dynamic values the plugin tells apart by type assertion: a
    [Message], an [Intent], a [ConversationState], and everything else,
    the nil interface value or a value of another type named [typ]. *)
Inductive val : Type :=
  | VNil
  | VMessage (msg : Message)
  | VIntent (intent : Intent)
  | VConversationState (st : ConversationState val)
  | VOther (typ : string).

(** [maxHistorySize] is never negative: [NewContextManagerPlugin] makes it
    positive, the zero value of the struct has 0. *)
Record ContextManagerPlugin : Type := mkContextManagerPlugin {
  maxHistorySize : Z
}.

Definition NewContextManagerPlugin (maxHistorySize : Z)
  : ContextManagerPlugin :=
  if (maxHistorySize <=? 0)%Z
  then {| maxHistorySize := 10 |}
  else {| maxHistorySize := maxHistorySize |}.

(** [ConversationState{History: make([]Message, 0), UserPrefs:
    make(map[string]any)}]: the zero [Intent]. *)
Definition newConversationState : ConversationState val :=
  {| History := []; UserPrefs := ∅;
     LastIntent := {| Type_ := ""; Confidence := 0%float |} |}.

(** [fmt.Sprintf] of conversation:%s with the session id. *)
Definition stateKey (msg : Message) : string :=
  ("conversation:" ++ SessionID msg)%string.

(** [h[len(h)-n:]] when [len(h) > n], else [h]. *)
Definition limit (n : Z) (h : list Message) : list Message :=
  if (n <? Z.of_nat (length h))%Z
  then drop (Z.to_nat (Z.of_nat (length h) - n)) h
  else h.

Definition ContextManagerPlugin_Execute {Ext : Type}
  (p : ContextManagerPlugin) : Plugin val Ext :=
  fun w =>
    match GetData (ctx w) with
    | VMessage msg =>
        let convState :=
          match GetState VNil (ctx w) (stateKey msg) with
          | (VConversationState st, true) => st
          | (_, _) => newConversationState
          end in
        let history :=
          limit (maxHistorySize p) (History convState ++ [msg]) in
        let lastIntent :=
          match Context_Get VNil (ctx w) "intent" with
          | (VIntent intent, true) => intent
          | (_, _) => LastIntent convState
          end in
        let convState :=
          {| History := history; UserPrefs := UserPrefs convState;
             LastIntent := lastIntent |} in
        let c1 := SetState (ctx w) (stateKey msg)
                    (VConversationState convState) in
        let c2 := Context_Set c1 "conversation_state"
                    (VConversationState convState) in
        ({| ctx := c2; ext := ext w |}, None)
    | _ =>
        (w, Some (PluginFailure "expected Message type in context data"))
    end.

(** The history the context holds for the session of [msg], empty when it
    holds none. *)
Definition history_of {Ext : Type} (msg : Message) (w : World val Ext)
  : list Message :=
  match state (ctx w) !! stateKey msg with
  | Some (VConversationState st) => History st
  | _ => []
  end.

(** The caller's turn for one message on a context it keeps: [SetData]
    of the message, then the plugin; the plugin's error is dropped. *)
Definition turn {Ext : Type} (p : ContextManagerPlugin)
  (w : World val Ext) (msg : Message) : World val Ext :=
  fst (ContextManagerPlugin_Execute p
         {| ctx := SetData (ctx w) (VMessage msg); ext := ext w |}).

(** The last [n] elements of [l], all of it when it has fewer. *)
Definition last_n {A : Type} (n : nat) (l : list A) : list A :=
  drop (length l - n) l.

End chatbot.

(** ** Package moderation: scoring, decision and action

    models.go and the last three plugins of plugins.go.  A [*Content] or
    [*ModerationResult] is the value it points to, or [None] when it is
    the nil pointer. *)

Module moderation.

Set Warnings "-inexact-float".

(** The constants of models.go, as the [float64] values nearest to the
    decimals. *)
Definition ApproveThreshold : float := 0.3%float.
Definition ReviewThreshold : float := 0.7%float.

Record Content : Type := mkContent {
  ID : string;
  Text : string;
  AuthorID : string;
  Timestamp : Z
}.

Record ModerationScore : Type := mkModerationScore {
  ProfanityScore : float;
  SpamScore : float;
  ToxicityScore : float;
  OverallScore : float
}.

Record ModerationDecision : Type := mkModerationDecision {
  Action : string;
  Score : ModerationScore;
  Reason : string;
  Flagged : bool
}.

Record ModerationResult : Type := mkModerationResult {
  Content_ : Content;
  Decision : ModerationDecision
}.

(** The dynamic values the plugins tell apart by type assertion. *)
Inductive val : Type :=
  | VNil
  | VContentPtr (content : option Content)
  | VFloat (f : float)
  | VScore (score : ModerationScore)
  | VDecision (decision : ModerationDecision)
  | VResultPtr (result : option ModerationResult)
  | VOther (typ : string).

(** What the verb %T prints for a value. *)
Definition typeName (v : val) : string :=
  match v with
  | VNil => "<nil>"
  | VContentPtr _ => "*moderation.Content"
  | VFloat _ => "float64"
  | VScore _ => "moderation.ModerationScore"
  | VDecision _ => "moderation.ModerationDecision"
  | VResultPtr _ => "*moderation.ModerationResult"
  | VOther typ => typ
  end.

Record ScoringPlugin : Type := mkScoringPlugin {
  profanityWeight : float;
  spamWeight : float;
  toxicityWeight : float
}.

Definition NewScoringPlugin : ScoringPlugin :=
  {| profanityWeight := 0.4%float;
     spamWeight := 0.3%float;
     toxicityWeight := 0.3%float |}.

Record DecisionRouterPlugin : Type := mkDecisionRouterPlugin {
  approveThreshold : float;
  reviewThreshold : float
}.

Definition NewDecisionRouterPlugin : DecisionRouterPlugin :=
  {| approveThreshold := ApproveThreshold;
     reviewThreshold := ReviewThreshold |}.

Section Plugins.

Variable Ext : Type.

(** The weighted sum [(profanityScore * p.profanityWeight) + (spamScore *
    p.spamWeight) + (toxicityScore * p.toxicityWeight)] of
    [ScoringPlugin.Execute], as the target computes it: Go lets an
    implementation fuse a product and a sum into one rounding, so the
    source alone does not fix the value. *)
Variable weighted : ScoringPlugin -> float -> float -> float -> float.

(** [val, ok := ctx.Get(key)] followed by [val.(float64)], zero when
    either fails. *)
Definition scoreAt (c : Context val) (key : string) : float :=
  match Context_Get VNil c key with
  | (VFloat score, true) => score
  | (_, _) => 0%float
  end.

Definition ScoringPlugin_Execute (p : ScoringPlugin) : Plugin val Ext :=
  fun w =>
    let profanityScore := scoreAt (ctx w) "profanity_score" in
    let spamScore := scoreAt (ctx w) "spam_score" in
    let toxicityScore := scoreAt (ctx w) "toxicity_score" in
    let overallScore := weighted p profanityScore spamScore toxicityScore in
    let moderationScore :=
      {| ProfanityScore := profanityScore;
         SpamScore := spamScore;
         ToxicityScore := toxicityScore;
         OverallScore := overallScore |} in
    ({| ctx := Context_Set (ctx w) "moderation_score" (VScore moderationScore);
        ext := ext w |}, None).

(** The score [ScoringPlugin.Execute] stores for the context [c]. *)
Definition computed_score (p : ScoringPlugin) (c : Context val)
  : ModerationScore :=
  {| ProfanityScore := scoreAt c "profanity_score";
     SpamScore := scoreAt c "spam_score";
     ToxicityScore := scoreAt c "toxicity_score";
     OverallScore :=
       weighted p (scoreAt c "profanity_score") (scoreAt c "spam_score")
         (scoreAt c "toxicity_score") |}.

(** The branches on the overall score. *)
Definition decide_action (p : DecisionRouterPlugin)
  (moderationScore : ModerationScore) : ModerationDecision :=
  if (OverallScore moderationScore <? approveThreshold p)%float then
    {| Action := "approve"; Score := moderationScore;
       Reason := "Content meets quality standards"; Flagged := false |}
  else if (OverallScore moderationScore <? reviewThreshold p)%float then
    {| Action := "review"; Score := moderationScore;
       Reason := "Content requires manual review"; Flagged := true |}
  else
    {| Action := "reject"; Score := moderationScore;
       Reason := "Content violates community guidelines"; Flagged := true |}.

Definition DecisionRouterPlugin_Execute (p : DecisionRouterPlugin)
  : Plugin val Ext :=
  fun w =>
    match Context_Get VNil (ctx w) "moderation_score" with
    | (_, false) =>
        (w, Some (PluginFailure "moderation_score not found in context"))
    | (VScore moderationScore, true) =>
        ({| ctx := Context_Set (ctx w) "moderation_decision"
                     (VDecision (decide_action p moderationScore));
            ext := ext w |}, None)
    | (scoreVal, true) =>
        (w, Some (PluginFailure
                    ("expected ModerationScore, got " ++ typeName scoreVal)))
    end.

(** The context [c] with the score and the decision of the first two
    stages stored in the metadata. *)
Definition scored_and_decided (s : ScoringPlugin) (d : DecisionRouterPlugin)
  (c : Context val) : Context val :=
  Context_Set
    (Context_Set c "moderation_score" (VScore (computed_score s c)))
    "moderation_decision"
    (VDecision (decide_action d (computed_score s c))).

(** [ActionHandlerPlugin] has no field.  The type assertion to
    [*Content] accepts the nil pointer; [*content] in the result then
    panics, after both lookups have succeeded.  The handler never calls
    [Use]. *)
Definition ActionHandlerPlugin_Execute (w : World val Ext)
  : World val Ext * outcome :=
  match GetData (ctx w) with
  | VContentPtr content =>
      match Context_Get VNil (ctx w) "moderation_decision" with
      | (_, false) =>
          (w, Returned (Some (PluginFailure
                                "moderation_decision not found in context")))
      | (VDecision decision, true) =>
          match content with
          | Some pointee =>
              ({| ctx := SetData (ctx w)
                           (VResultPtr (Some {| Content_ := pointee;
                                                Decision := decision |}));
                  ext := ext w |}, Returned None)
          | None => (w, Panicked)
          end
      | (decisionVal, true) =>
          (w, Returned (Some (PluginFailure
                                ("expected ModerationDecision, got "
                                 ++ typeName decisionVal))))
      end
  | data =>
      (w, Returned (Some (PluginFailure
                            ("expected *Content, got " ++ typeName data))))
  end.

(** The last three stages of the moderation pipeline, as the example
    programs append them. *)
Definition tail_plugins (s : ScoringPlugin) (d : DecisionRouterPlugin)
  : list (GPlugin val Ext) :=
  [glift (ScoringPlugin_Execute s);
   glift (DecisionRouterPlugin_Execute d);
   GP (fun w => (ActionHandlerPlugin_Execute w, []))].

End Plugins.

Arguments scoreAt c key : assert.
Arguments ScoringPlugin_Execute {Ext} weighted p.
Arguments DecisionRouterPlugin_Execute {Ext} p.
Arguments computed_score weighted p c : assert.
Arguments scored_and_decided weighted s d c : assert.
Arguments ActionHandlerPlugin_Execute {Ext}.
Arguments tail_plugins {Ext} weighted s d.

End moderation.

(** ** Package http: the handler around a pipeline

    handler.go.  The handler's answer is the list of calls it makes on
    the [http.ResponseWriter], in order.  What the standard library does
    is taken as given: reading the body, [json.Unmarshal] and the JSON
    encoder, the quoting of the verb %q, and the parsing of the query
    string. *)

From Stdlib Require Import DecimalString.

Module http.

(** What the verb %d prints for an [int]. *)
Definition decimal (i : Z) : string := NilZero.string_of_int (Z.to_int i).

(** The method [Error()] of the errors of package core; [quote] is the
    verb %q on a string. *)
Fixpoint Error (quote : string -> string) (e : error) : string :=
  match e with
  | PluginFailure msg => msg
  | PipelineError i err =>
      "plugin " ++ decimal i ++ " failed: " ++ Error quote err
  | ErrAlreadyRegistered name =>
      "plugin " ++ quote name ++ " is already registered"
  | ErrNotFound name =>
      "plugin " ++ quote name ++ " not found in registry"
  | ErrBuildPipeline err =>
      "failed to build pipeline: " ++ Error quote err
  end%string.

(** What the handler reads of an [*http.Request]: the bytes [io.ReadAll]
    returns for the body, [None] when it returns an error; the header;
    the parsed query [r.URL.Query()]; the method and the path. *)
Record Request : Type := mkRequest {
  Body : option string;
  Header : gmap string (list string);
  Query : gmap string (list string);
  Method : string;
  Path : string
}.

(** The calls on the response writer. *)
Inductive wcall : Type :=
  (** [http.Error(w, msg, code)] *)
  | HttpError (msg : string) (code : Z)
  (** [w.Header().Set(key, value)] *)
  | HeaderSet (key value : string)
  (** [w.WriteHeader(code)] *)
  | WriteHeader (code : Z)
  (** the bytes a JSON encoder on [w] writes for one value *)
  | EncoderWrite (out : string).

Definition StatusOK : Z := 200.
Definition StatusBadRequest : Z := 400.
Definition StatusUnprocessableEntity : Z := 422.
Definition StatusInternalServerError : Z := 500.

Section Handler.

Variable any : Type.
Variable Ext : Type.

(** A string, a [[]string] and a [map[string]any] as values of type
    [any]. *)
Variable ofString : string -> any.
Variable ofStrings : list string -> any.
Variable ofMap : gmap string any -> any.

(** [json.Unmarshal(body, &data)] for [data map[string]any]: the value of
    [data] afterwards, [None] when it returns an error. *)
Variable Unmarshal : string -> option any.

(** What [Encode] of a JSON encoder writes for a value, [None] when it
    returns an error and writes nothing. *)
Variable Marshal : any -> option string.

Variable quote : string -> string.

Definition formatErrors (errors : list error) : list string :=
  map (Error quote) errors.

(** The body of both range loops: one value is kept as a string, any
    other number of values as the slice. *)
Definition flatten (values : list string) : any :=
  match values with
  | [value] => ofString value
  | _ => ofStrings values
  end.

(** The context the handler builds for the request around [data]. *)
Definition request_context (r : Request) (data : any) : Context any :=
  let c := NewContext data in
  let c := Context_Set c "headers" (ofMap (flatten <$> Header r)) in
  let c := Context_Set c "query" (ofMap (flatten <$> Query r)) in
  let c := Context_Set c "method" (ofString (Method r)) in
  Context_Set c "path" (ofString (Path r)).

(** [json.NewEncoder(w).Encode(v)]: the calls on [w]. *)
Definition encode (v : any) : list wcall :=
  match Marshal v with
  | Some out => [EncoderWrite out]
  | None => []
  end.

(** From [ctx := core.NewContext(data)] to the end. *)
Definition serve (h : Pipeline any Ext) (r : Request) (data : any) (e : Ext)
  : list wcall * Ext :=
  let (err, m) :=
    Execute (boot h {| ctx := request_context r data; ext := e |}) in
  let c := ctx (world m) in
  match err with
  | Some err =>
      ([HttpError (Error quote err) StatusInternalServerError],
       ext (world m))
  | None =>
      if (0 <? Z.of_nat (length (Errors c)))%Z then
        ([HeaderSet "Content-Type" "application/json";
          WriteHeader StatusUnprocessableEntity]
         ++ encode (ofMap {[ "errors" := ofStrings (formatErrors (Errors c)) ]}),
         ext (world m))
      else
        ([HeaderSet "Content-Type" "application/json";
          WriteHeader StatusOK]
         ++ match Marshal (GetData c) with
            | Some out => [EncoderWrite out]
            | None =>
                [HttpError "Failed to encode response"
                   StatusInternalServerError]
            end,
         ext (world m))
  end.

(** [ServeHTTP] for the pipeline [h] of the handler: the calls on the
    response writer and the plugins' surroundings afterwards. *)
Definition ServeHTTP (h : Pipeline any Ext) (r : Request) (e : Ext)
  : list wcall * Ext :=
  match Body r with
  | None =>
      ([HttpError "Failed to read request body" StatusBadRequest], e)
  | Some body =>
      if (0 <? Z.of_nat (String.length body))%Z then
        match Unmarshal body with
        | None =>
            ([HttpError "Invalid JSON in request body" StatusBadRequest], e)
        | Some data => serve h r data e
        end
      else serve h r (ofMap ∅) e
  end.

(** The data the handler makes of the body: the empty map for an empty
    body, what [json.Unmarshal] leaves otherwise; [None] when the body
    cannot be read or parsed. *)
Definition request_data (r : Request) : option any :=
  match Body r with
  | None => None
  | Some body =>
      if (0 <? Z.of_nat (String.length body))%Z
      then Unmarshal body
      else Some (ofMap ∅)
  end.

(** The calls of the branch that answers 200 for the data [data]. *)
Definition ok_calls (data : any) : list wcall :=
  [HeaderSet "Content-Type" "application/json"; WriteHeader StatusOK]
  ++ match Marshal data with
     | Some out => [EncoderWrite out]
     | None =>
         [HttpError "Failed to encode response" StatusInternalServerError]
     end.

(** The calls of the branch that answers 422 with the messages
    [messages]. *)
Definition unprocessable_calls (messages : list string) : list wcall :=
  [HeaderSet "Content-Type" "application/json";
   WriteHeader StatusUnprocessableEntity]
  ++ encode (ofMap {[ "errors" := ofStrings messages ]}).

End Handler.

Arguments flatten {any}.
Arguments request_context {any}.
Arguments encode {any}.
Arguments serve {any Ext}.
Arguments ServeHTTP {any Ext}.
Arguments request_data {any}.
Arguments ok_calls {any}.
Arguments unprocessable_calls {any}.

End http.

(** ** Samples for the example packages *)

(** Three messages of one session. *)
Definition msg1 : chatbot.Message :=
  chatbot.mkMessage "Hello" "user-456" "session-123" 1.
Definition msg2 : chatbot.Message :=
  chatbot.mkMessage "An order" "user-456" "session-123" 2.
Definition msg3 : chatbot.Message :=
  chatbot.mkMessage "Goodbye" "user-456" "session-123" 3.

(** A context whose data is not a message. *)
Definition no_message : World chatbot.val nat :=
  {| ctx := NewContext (chatbot.VOther "string"); ext := O |}.

(** The weighted sum with every product and sum rounded on its own. *)
Definition weighted_unfused (p : moderation.ScoringPlugin)
  (profanityScore spamScore toxicityScore : float) : float :=
  (profanityScore * moderation.profanityWeight p
   + spamScore * moderation.spamWeight p
   + toxicityScore * moderation.toxicityWeight p)%float.

Definition sample_content : moderation.Content :=
  moderation.mkContent "content-001" "This is a great product!" "user-123" 1.

(** The content with a profanity score of one left by an earlier stage. *)
Definition scored_content : World moderation.val nat :=
  {| ctx := Context_Set
              (NewContext (moderation.VContentPtr (Some sample_content)))
              "profanity_score" (moderation.VFloat 1%float);
     ext := O |}.

(** The same context around the nil pointer. *)
Definition scored_nil : World moderation.val nat :=
  {| ctx := Context_Set (NewContext (moderation.VContentPtr None))
              "profanity_score" (moderation.VFloat 1%float);
     ext := O |}.

(** The last three stages of the moderation pipeline, under
    [AbortOnError]. *)
Definition moderation_tail : GPipeline moderation.val nat :=
  {| gplugins :=
       moderation.tail_plugins weighted_unfused moderation.NewScoringPlugin
         moderation.NewDecisionRouterPlugin;
     gstrategy := AbortOnError |}.

(** A score that is not a number. *)
Definition nan_score : moderation.ModerationScore :=
  moderation.mkModerationScore 0%float 0%float 0%float nan.

(** A request with a body, and a handler on strings whose JSON decoding
    and encoding are the identity. *)
Definition sample_request : http.Request :=
  http.mkRequest (Some "World") ∅ ∅ "POST" "/greet".

Definition sample_ServeHTTP (h : Pipeline string nat)
  : http.Request -> nat -> list http.wcall * nat :=
  http.ServeHTTP (fun s => s) (String.concat ",") (fun _ => "{}"%string)
    (fun body => Some body) (fun data => Some data) (fun s => s) h.

(** ** Facts about the plugin loop *)

Section LoopFacts.

Variable any : Type.
Variable Ext : Type.

Implicit Types (ps pre post rest : list (Plugin any Ext)).
Implicit Types (m : Machine any Ext) (w : World any Ext).
Implicit Types (p : Pipeline any Ext) (i j : Z).

(** One turn of the loop, by the error the plugin returns and the
    strategy read at that moment. *)
Lemma Execute_loop_cons i (plugin : Plugin any Ext) rest m :
  Execute_loop i (plugin :: rest) m =
  match snd (plugin (world m)) with
  | None =>
      Execute_loop (i + 1) rest
        {| pipe := pipe m; world := fst (plugin (world m));
           invoked := invoked m ++ [i] |}
  | Some e =>
      match errorStrategy (pipe m) with
      | AbortOnError =>
          (Some (PipelineError i e),
           {| pipe := pipe m; world := fst (plugin (world m));
              invoked := invoked m ++ [i] |})
      | ContinueOnError =>
          Execute_loop (i + 1) rest
            {| pipe := pipe m;
               world := record_failure (i, e) (fst (plugin (world m)));
               invoked := invoked m ++ [i] |}
      end
  end.
Proof.
  cbn [Execute_loop]. unfold bind, call.
  destruct (plugin (world m)) as [w1 [e|]]; cbn [fst snd]; [|reflexivity].
  unfold gets. cbn [pipe]. destruct (errorStrategy (pipe m)); reflexivity.
Qed.

Lemma Execute_loop_nil i m : Execute_loop i [] m = (None, m).
Proof. reflexivity. Qed.

Lemma indices_snoc i n :
  indices i (S n) = indices i n ++ [(i + Z.of_nat n)%Z].
Proof.
  revert i. induction n as [|n IH]; intros i.
  - cbn. by rewrite Z.add_0_r.
  - change (indices i (S (S n))) with (i :: indices (i + 1) (S n)).
    rewrite IH. cbn [indices app]. do 3 f_equal. lia.
Qed.

Lemma indices_bounds i n j :
  j ∈ indices i n -> (i <= j < i + Z.of_nat n)%Z.
Proof.
  revert i. induction n as [|n IH]; intros i; cbn [indices].
  - by intros ?%elem_of_nil.
  - intros [->|Hj%IH]%elem_of_cons; lia.
Qed.

Lemma indices_length i n : length (indices i n) = n.
Proof. revert i. induction n as [|n IH]; intros i; cbn; by rewrite ?IH. Qed.

Lemma indices_NoDup i n : NoDup (indices i n).
Proof.
  revert i. induction n as [|n IH]; intros i; cbn [indices].
  - constructor.
  - constructor; [|apply IH]. intros Hin%indices_bounds. lia.
Qed.

(** The loop never writes the pipeline. *)
Lemma Execute_loop_pipe ps i m :
  pipe (snd (Execute_loop i ps m)) = pipe m.
Proof.
  revert i m. induction ps as [|plugin rest IH]; intros i m; [reflexivity|].
  rewrite Execute_loop_cons.
  destruct (snd (plugin (world m))) as [e|]; [|by rewrite IH].
  destruct (errorStrategy (pipe m)); [reflexivity|by rewrite IH].
Qed.

(** A prefix of plugins that all return nil is run through in order,
    whatever the strategy. *)
Lemma Execute_loop_ok_prefix pre rest i m w1 :
  run_ok pre (world m) = Some w1 ->
  Execute_loop i (pre ++ rest) m =
  Execute_loop (i + Z.of_nat (length pre)) rest
    {| pipe := pipe m; world := w1;
       invoked := invoked m ++ indices i (length pre) |}.
Proof.
  revert i m. induction pre as [|plugin pre IH]; intros i m Hok.
  - cbn in Hok. injection Hok as <-. cbn [app length indices].
    rewrite Z.add_0_r, app_nil_r. by destruct m.
  - cbn [run_ok] in Hok. cbn [app]. rewrite Execute_loop_cons.
    destruct (plugin (world m)) as [w' [e|]]; [discriminate|]. cbn [fst snd].
    rewrite (IH (i + 1)%Z (mkMachine (pipe m) w' (invoked m ++ [i])) Hok).
    cbn [pipe invoked length indices].
    rewrite <- app_assoc. cbn [app].
    by replace (i + 1 + Z.of_nat (length pre))%Z
      with (i + Z.of_nat (S (length pre)))%Z by lia.
Qed.

(** [Use] after [Use] builds the slice in the order of the calls. *)
Lemma plugins_fold_Use ps p :
  plugins (fold_left Use ps p) = plugins p ++ ps
  /\ errorStrategy (fold_left Use ps p) = errorStrategy p.
Proof.
  revert p. induction ps as [|plugin ps IH]; intros p; cbn [fold_left].
  - by rewrite app_nil_r.
  - destruct (IH (Use p plugin)) as [-> ->]. cbn. by rewrite <- app_assoc.
Qed.

(** Under [AbortOnError] only the plugins write the context's errors. *)
Lemma Execute_loop_abort_errors ps i m :
  errorStrategy (pipe m) = AbortOnError ->
  Forall keeps_errors ps ->
  Errors (ctx (world (snd (Execute_loop i ps m)))) = Errors (ctx (world m)).
Proof.
  revert i m. induction ps as [|plugin rest IH]; intros i m Hs Hk; [reflexivity|].
  apply Forall_cons in Hk as [Hp Hrest]. rewrite Execute_loop_cons.
  destruct (snd (plugin (world m))) as [e|].
  - rewrite Hs. cbn. apply Hp.
  - rewrite IH by done. cbn. apply Hp.
Qed.

(** Under [ContinueOnError] the loop runs every plugin and returns nil. *)
Lemma Execute_loop_continue ps i m :
  errorStrategy (pipe m) = ContinueOnError ->
  fst (Execute_loop i ps m) = None
  /\ invoked (snd (Execute_loop i ps m)) = invoked m ++ indices i (length ps).
Proof.
  revert i m. induction ps as [|plugin rest IH]; intros i m Hs.
  - cbn. by rewrite app_nil_r.
  - rewrite Execute_loop_cons. cbn [length indices].
    destruct (snd (plugin (world m))) as [e|]; rewrite ?Hs;
      (edestruct IH as [-> ->]; [exact Hs|]); cbn [invoked];
      by rewrite <- app_assoc.
Qed.

(** ... and what it adds to the context's errors is the wrapped failures,
    in the order of the plugins. *)
Lemma Execute_loop_continue_errors ps i m :
  errorStrategy (pipe m) = ContinueOnError ->
  Forall keeps_errors ps ->
  Errors (ctx (world (snd (Execute_loop i ps m)))) =
  Errors (ctx (world m)) ++ map wrap (failures i ps (world m)).
Proof.
  revert i m. induction ps as [|plugin rest IH]; intros i m Hs Hk.
  - cbn. by rewrite app_nil_r.
  - apply Forall_cons in Hk as [Hp Hrest]. rewrite Execute_loop_cons.
    cbn [failures]. specialize (Hp (world m)).
    destruct (plugin (world m)) as [w1 [e|]]; cbn [fst snd] in *.
    + rewrite Hs, IH by done. cbn. rewrite Hp, <- app_assoc. reflexivity.
    + rewrite IH by done. cbn. by rewrite Hp.
Qed.

Lemma failures_bounds ps i w :
  Forall (fun j => (i <= j < i + Z.of_nat (length ps))%Z)
         (map fst (failures i ps w)).
Proof.
  revert i w. induction ps as [|plugin rest IH]; intros i w; [constructor|].
  cbn [failures length].
  destruct (plugin w) as [w1 [e|]]; cbn [map fst]; [constructor; [lia|]|];
    (eapply Forall_impl; [apply IH|]); cbn; intros; lia.
Qed.

Lemma failures_sorted ps i w :
  StronglySorted Z.lt (map fst (failures i ps w)).
Proof.
  revert i w. induction ps as [|plugin rest IH]; intros i w; [constructor|].
  cbn [failures].
  destruct (plugin w) as [w1 [e|]]; cbn [map fst]; [|apply IH].
  constructor; [apply IH|].
  eapply Forall_impl; [apply failures_bounds|]. cbn. intros; lia.
Qed.

End LoopFacts.

(** ** The pipeline executor *)

Section PipelineFacts.

Variable any : Type.
Variable Ext : Type.

Implicit Types (ps pre post : list (Plugin any Ext)).
Implicit Types (m : Machine any Ext) (w : World any Ext).
Implicit Types (p : Pipeline any Ext) (q : Plugin any Ext).

(** C1: under [AbortOnError], when the plugins before index [k] all
    return nil (on the context as the ones before left it) and the plugin
    at index [k] returns the failure [e], [Execute] returns an error whose
    [PluginIndex] is [k] and which unwraps to [e], the context is as the
    failing plugin left it, and the plugins invoked are those at
    [0, ..., k], once each: none at an index above [k]. *)
Theorem Execute_abort_first_failure p pre q post w w1 w2 e :
  errorStrategy p = AbortOnError ->
  plugins p = pre ++ q :: post ->
  run_ok pre w = Some w1 ->
  q w1 = (w2, Some e) ->
  exists err,
    fst (Execute (boot p w)) = Some err
    /\ PluginIndex err = Some (Z.of_nat (length pre))
    /\ Unwrap err = Some e
    /\ world (snd (Execute (boot p w))) = w2
    /\ invoked (snd (Execute (boot p w))) = indices 0 (S (length pre))
    /\ (forall j, j ∈ invoked (snd (Execute (boot p w))) ->
        (0 <= j <= Z.of_nat (length pre))%Z).
Proof.
  intros Hs Hp Hpre Hq. unfold Execute. cbn [boot pipe]. rewrite Hp.
  rewrite (Execute_loop_ok_prefix any Ext pre (q :: post) 0 (boot p w) w1 Hpre).
  rewrite Execute_loop_cons. cbn [world pipe invoked boot].
  rewrite Hq, Hs. cbn [fst snd world invoked app].
  exists (PipelineError (0 + Z.of_nat (length pre)) e).
  rewrite <- indices_snoc.
  split; [reflexivity|]. split; [cbn; f_equal; lia|].
  do 3 (split; [reflexivity|]).
  intros j Hj%indices_bounds. lia.
Qed.

(** C2, for plugins that leave the errors alone: under
    [ContinueOnError], from a context with no
    errors, [Execute] returns nil and invokes every plugin once, in
    order; and when no plugin writes the context's errors itself, the
    errors afterwards are the wrapped failures of the plugins that failed,
    one each, by ascending index, each unwrapping to the failure its
    plugin returned. *)
Theorem Execute_continue_collects p w :
  errorStrategy p = ContinueOnError ->
  Errors (ctx w) = [] ->
  fst (Execute (boot p w)) = None
  /\ invoked (snd (Execute (boot p w))) = indices 0 (length (plugins p))
  /\ (Forall keeps_errors (plugins p) ->
      Errors (ctx (world (snd (Execute (boot p w))))) =
        map wrap (failures 0 (plugins p) w)
      /\ length (Errors (ctx (world (snd (Execute (boot p w)))))) =
        length (failures 0 (plugins p) w)
      /\ map PluginIndex (Errors (ctx (world (snd (Execute (boot p w)))))) =
        map (fun f => Some (fst f)) (failures 0 (plugins p) w)
      /\ map Unwrap (Errors (ctx (world (snd (Execute (boot p w)))))) =
        map (fun f => Some (snd f)) (failures 0 (plugins p) w)
      /\ StronglySorted Z.lt (map fst (failures 0 (plugins p) w))
      /\ Forall (fun j => (0 <= j < Z.of_nat (length (plugins p)))%Z)
           (map fst (failures 0 (plugins p) w))).
Proof.
  intros Hs He. unfold Execute. cbn [boot pipe].
  destruct (Execute_loop_continue any Ext (plugins p) 0 (boot p w) Hs) as [Hr Hi].
  split; [exact Hr|]. split; [exact Hi|]. intros Hk.
  assert (Herr : Errors (ctx (world (snd
            (Execute_loop 0 (plugins p) (boot p w))))) =
          map wrap (failures 0 (plugins p) w)).
  { rewrite Execute_loop_continue_errors by done. cbn [boot world].
    by rewrite He. }
  unfold boot in *. rewrite Herr.
  repeat split.
  - by rewrite length_map.
  - rewrite map_map. reflexivity.
  - rewrite map_map. reflexivity.
  - apply failures_sorted.
  - eapply Forall_impl; [apply failures_bounds|]. cbn. intros; lia.
Qed.

(** C5: under [AbortOnError], when no plugin writes the context's errors
    itself, the errors after [Execute] are the errors before it, whether
    the run ends by a failure or not. *)
Theorem Execute_abort_keeps_errors p w :
  errorStrategy p = AbortOnError ->
  Forall keeps_errors (plugins p) ->
  Errors (ctx (world (snd (Execute (boot p w))))) = Errors (ctx w).
Proof.
  intros Hs Hk. unfold Execute. cbn [boot pipe].
  by rewrite Execute_loop_abort_errors.
Qed.

(** C6: when the plugins appended with [Use], in that order, all return
    nil, each on the context the one before left, [Execute] returns nil,
    has invoked the plugins [0, ..., n-1] in that order, once each, and
    leaves the world the plugins produce one after the other in the order
    they were appended. *)
Theorem Execute_all_succeed strategy ps w w' :
  run_ok ps w = Some w' ->
  Execute (boot (fold_left Use ps (NewPipeline strategy)) w) =
  (None,
   {| pipe := fold_left Use ps (NewPipeline strategy);
      world := w';
      invoked := indices 0 (length ps) |}).
Proof.
  intros Hok. unfold Execute. cbn [boot pipe].
  destruct (plugins_fold_Use any Ext ps (NewPipeline strategy)) as [-> _].
  cbn [NewPipeline plugins app]. rewrite <- (app_nil_r ps) at 1.
  by rewrite (Execute_loop_ok_prefix any Ext ps [] 0 (boot _ w) w' Hok).
Qed.

(** C7: executing a pipeline fresh from [NewPipeline], under either
    strategy, returns nil and leaves the pipeline, the world and with it
    the context's data, metadata, state and errors as they were; no plugin
    is invoked. *)
Theorem Execute_empty strategy w :
  Execute (boot (NewPipeline strategy) w) =
    (None, boot (NewPipeline strategy) w)
  /\ Data (ctx (world (snd (Execute (boot (NewPipeline strategy) w))))) =
     Data (ctx w)
  /\ Metadata (ctx (world (snd (Execute (boot (NewPipeline strategy) w))))) =
     Metadata (ctx w)
  /\ state (ctx (world (snd (Execute (boot (NewPipeline strategy) w))))) =
     state (ctx w)
  /\ Errors (ctx (world (snd (Execute (boot (NewPipeline strategy) w))))) =
     Errors (ctx w).
Proof. unfold Execute. cbn. repeat split. Qed.

End PipelineFacts.

(** ** The executor for plugins that may panic or call [Use] *)

Section GeneralFacts.

Variable any : Type.
Variable Ext : Type.

Implicit Types (ps added : list (GPlugin any Ext)) (q : GPlugin any Ext).
Implicit Types (m : GMachine any Ext) (p : GPipeline any Ext).

(** One turn of the loop, by how the call ends. *)
Lemma GExecute_loop_cons i q (rest : list (GPlugin any Ext)) m :
  GExecute_loop i (q :: rest) m =
  match fst (gcall i q m) with
  | Panicked => (Panicked, snd (gcall i q m))
  | Returned None => GExecute_loop (i + 1) rest (snd (gcall i q m))
  | Returned (Some e) =>
      match gstrategy (gpipe (snd (gcall i q m))) with
      | AbortOnError =>
          (Returned (Some (PipelineError i e)), snd (gcall i q m))
      | ContinueOnError =>
          GExecute_loop (i + 1) rest
            {| gpipe := gpipe (snd (gcall i q m));
               gworld := record_failure (i, e) (gworld (snd (gcall i q m)));
               ginvoked := ginvoked (snd (gcall i q m)) |}
      end
  end.
Proof.
  cbn [GExecute_loop]. unfold bind at 1.
  destruct (gcall i q m) as [[[e|]|] m1]; cbn [fst snd]; try reflexivity.
  unfold bind, gets. cbn [fst snd].
  destruct (gstrategy (gpipe m1)); reflexivity.
Qed.

Lemma GUse_fold added p :
  gplugins (fold_left GUse added p) = gplugins p ++ added
  /\ gstrategy (fold_left GUse added p) = gstrategy p.
Proof.
  revert p. induction added as [|q added IH]; intros p; cbn [fold_left].
  - by rewrite app_nil_r.
  - destruct (IH (GUse p q)) as [-> ->]. cbn. by rewrite <- app_assoc.
Qed.

(** What a call does to the pipeline: it appends what the plugin passed
    to [Use]. *)
Lemma gcall_pipe i q m :
  gstrategy (gpipe (snd (gcall i q m))) = gstrategy (gpipe m)
  /\ gplugins (gpipe (snd (gcall i q m))) =
     gplugins (gpipe m) ++ snd (gexec q (gworld m)).
Proof.
  unfold gcall. destruct (gexec q (gworld m)) as [[w1 out] added].
  cbn [fst snd gpipe]. destruct (GUse_fold added (gpipe m)) as [-> ->]. done.
Qed.

(** A plugin of the first kind is called as before. *)
Lemma gcall_glift i (plugin : Plugin any Ext) m :
  gcall i (glift plugin) m =
  (Returned (snd (plugin (gworld m))),
   {| gpipe := gpipe m;
      gworld := fst (plugin (gworld m));
      ginvoked := ginvoked m ++ [i] |}).
Proof. reflexivity. Qed.

(** The loop never writes the strategy, and the only writes to the plugin
    slice are the plugins' own appends. *)
Lemma GExecute_loop_pipe ps i m :
  gstrategy (gpipe (snd (GExecute_loop i ps m))) = gstrategy (gpipe m)
  /\ exists added,
       gplugins (gpipe (snd (GExecute_loop i ps m))) =
       gplugins (gpipe m) ++ added
       /\ (Forall quiet ps -> added = []).
Proof.
  revert i m. induction ps as [|q rest IH]; intros i m.
  - cbn. split; [done|]. exists []. by rewrite app_nil_r.
  - rewrite GExecute_loop_cons.
    destruct (gcall_pipe i q m) as [Hs Hp].
    assert (Hq : Forall quiet (q :: rest) -> snd (gexec q (gworld m)) = [])
      by (intros [Hq _]%Forall_cons; apply Hq).
    assert (Hgo : forall m1 : GMachine any Ext,
      gpipe m1 = gpipe (snd (gcall i q m)) ->
      gstrategy (gpipe (snd (GExecute_loop (i + 1) rest m1))) =
        gstrategy (gpipe m)
      /\ exists added,
           gplugins (gpipe (snd (GExecute_loop (i + 1) rest m1))) =
           gplugins (gpipe m) ++ added
           /\ (Forall quiet (q :: rest) -> added = [])).
    { intros m1 Hm1. destruct (IH (i + 1)%Z m1) as (Hs1 & added & Hp1 & Hq1).
      rewrite Hs1, Hp1, Hm1, Hs, Hp. split; [done|].
      exists (snd (gexec q (gworld m)) ++ added).
      split; [by rewrite app_assoc|].
      intros Hall. rewrite (Hq Hall). apply Forall_cons in Hall as [_ Hall].
      by rewrite (Hq1 Hall). }
    assert (Hstop :
      gstrategy (gpipe (snd (gcall i q m))) = gstrategy (gpipe m)
      /\ exists added,
           gplugins (gpipe (snd (gcall i q m))) = gplugins (gpipe m) ++ added
           /\ (Forall quiet (q :: rest) -> added = [])).
    { split; [exact Hs|]. by exists (snd (gexec q (gworld m))). }
    destruct (fst (gcall i q m)) as [[e|]|]; cbn [snd].
    + destruct (gstrategy (gpipe (snd (gcall i q m)))) in |- *; cbn [snd];
        [exact Hstop|by apply Hgo].
    + by apply Hgo.
    + exact Hstop.
Qed.


(** On plugins of the first kind this executor is [Execute]: it returns
    what [Execute] returns and leaves the machine [Execute] leaves. *)
Lemma GExecute_loop_glift (ps : list (Plugin any Ext)) i (m : Machine any Ext) :
  GExecute_loop i (map glift ps) (gmachine_of m) =
  (Returned (fst (Execute_loop i ps m)), gmachine_of (snd (Execute_loop i ps m))).
Proof.
  revert i m. induction ps as [|plugin rest IH]; intros i m; [reflexivity|].
  cbn [map]. rewrite GExecute_loop_cons, Execute_loop_cons, gcall_glift.
  cbn [fst snd gmachine_of gpipe gworld ginvoked gpipeline_of gstrategy].
  destruct (snd (plugin (world m))) as [e|].
  - destruct (errorStrategy (pipe m)); [reflexivity|].
    apply (IH (i + 1)%Z (mkMachine (pipe m) _ _)).
  - apply (IH (i + 1)%Z (mkMachine (pipe m) _ _)).
Qed.

Lemma GExecute_glift (m : Machine any Ext) :
  GExecute (gmachine_of m) =
  (Returned (fst (Execute m)), gmachine_of (snd (Execute m))).
Proof. apply GExecute_loop_glift. Qed.

End GeneralFacts.

(** ** The context carrier *)

Section ContextFacts.

Variable any : Type.
Variable nilAny : any.

Implicit Types (c : Context any) (k : string) (v : any).

(** C9: [Set] then [Get] of the same metadata key returns the value and
    true; [Set] leaves the data, the state map, the errors and every other
    metadata key as they were.  [SetState] and [GetState] do the same on
    the state map and leave the data, the metadata, the errors and every
    other state key as they were. *)
Theorem Context_set_get c k v :
  (Context_Get nilAny (Context_Set c k v) k = (v, true)
   /\ Data (Context_Set c k v) = Data c
   /\ state (Context_Set c k v) = state c
   /\ Errors (Context_Set c k v) = Errors c
   /\ (forall k' : string, k' <> k ->
       Metadata (Context_Set c k v) !! k' = Metadata c !! k'
       /\ Context_Get nilAny (Context_Set c k v) k' = Context_Get nilAny c k')
   /\ (forall k' : string,
       GetState nilAny (Context_Set c k v) k' = GetState nilAny c k'))
  /\
  (GetState nilAny (SetState c k v) k = (v, true)
   /\ Data (SetState c k v) = Data c
   /\ Metadata (SetState c k v) = Metadata c
   /\ Errors (SetState c k v) = Errors c
   /\ (forall k' : string, k' <> k ->
       state (SetState c k v) !! k' = state c !! k'
       /\ GetState nilAny (SetState c k v) k' = GetState nilAny c k')
   /\ (forall k' : string,
       Context_Get nilAny (SetState c k v) k' = Context_Get nilAny c k')).
Proof.
  split.
  - unfold Context_Get, GetState. cbn [Context_Set Metadata Data state Errors].
    rewrite lookup_insert_eq. do 4 (split; [reflexivity|]).
    split; [|reflexivity]. intros k' Hne.
    by rewrite lookup_insert_ne.
  - unfold Context_Get, GetState. cbn [SetState Metadata Data state Errors].
    rewrite lookup_insert_eq. do 4 (split; [reflexivity|]).
    split; [|reflexivity]. intros k' Hne.
    by rewrite lookup_insert_ne.
Qed.

End ContextFacts.

(** ** The registry *)

Section RegistryFacts.

Variable any : Type.
Variable Ext : Type.

Implicit Types (r : Registry any Ext) (name : string).
Implicit Types (plugin A B : Plugin any Ext) (names pre post : list string).
Implicit Types (p pipeline : Pipeline any Ext).

Lemma Get_bound r name plugin :
  reg_plugins r !! name = Some plugin -> Get name r = (Ok plugin, r).
Proof. unfold Get. by intros ->. Qed.

Lemma Get_unbound r name :
  reg_plugins r !! name = None -> Get name r = (Fail (ErrNotFound name), r).
Proof. unfold Get. by intros ->. Qed.

(** Resolving names that are all bound appends their plugins, in the
    order of the names, to the pipeline built so far. *)
Lemma BuildPipeline_loop_resolved names r pipeline ps :
  Forall2 (fun name plugin => reg_plugins r !! name = Some plugin) names ps ->
  BuildPipeline_loop names pipeline r =
  (Ok {| plugins := plugins pipeline ++ ps;
         errorStrategy := errorStrategy pipeline |}, r).
Proof.
  intros Hall. revert pipeline.
  induction Hall as [|name plugin names ps Hn _ IH]; intros pipeline.
  - cbn. rewrite app_nil_r. by destruct pipeline.
  - cbn [BuildPipeline_loop]. unfold bind at 1.
    rewrite (Get_bound _ _ _ Hn), IH. cbn [Use plugins errorStrategy].
    by rewrite <- app_assoc.
Qed.

(** C3: [BuildPipeline] looks the names up in order.  When all are bound
    it returns a pipeline with the given strategy whose plugins are the
    ones bound to the names, in the order of the names.  When [missing] is
    the first unbound name it returns no pipeline and an error that
    unwraps to the not-found error [Get] returns for [missing], whatever
    names follow.  The registry is left as it was. *)
Theorem BuildPipeline_spec r names strategy :
  (forall ps,
     Forall2 (fun name plugin => reg_plugins r !! name = Some plugin)
       names ps ->
     BuildPipeline names strategy r =
       (Ok {| plugins := ps; errorStrategy := strategy |}, r))
  /\
  (forall pre missing post,
     names = pre ++ missing :: post ->
     Forall (fun name => is_Some (reg_plugins r !! name)) pre ->
     reg_plugins r !! missing = None ->
     BuildPipeline names strategy r =
       (Fail (ErrBuildPipeline (ErrNotFound missing)), r)
     /\ value (fst (BuildPipeline names strategy r)) = None
     /\ (exists err,
           failure (fst (BuildPipeline names strategy r)) = Some err
           /\ Unwrap err = failure (fst (Get missing r))
           /\ Unwrap err = Some (ErrNotFound missing))).
Proof.
  split.
  - intros ps Hps. unfold BuildPipeline.
    by rewrite (BuildPipeline_loop_resolved _ _ _ _ Hps).
  - intros pre missing post -> Hpre Hmiss. unfold BuildPipeline.
    assert (Hloop : forall pipeline,
      BuildPipeline_loop (pre ++ missing :: post) pipeline r =
      (Fail (ErrBuildPipeline (ErrNotFound missing)), r)).
    { induction Hpre as [|name pre [plugin Hn] _ IH]; intros pipeline.
      - cbn [app BuildPipeline_loop]. unfold bind.
        by rewrite (Get_unbound _ _ Hmiss).
      - cbn [app BuildPipeline_loop]. unfold bind at 1.
        rewrite (Get_bound _ _ _ Hn). apply IH. }
    rewrite Hloop. cbn [fst value failure]. split; [reflexivity|].
    split; [reflexivity|]. eexists. split; [reflexivity|].
    rewrite (Get_unbound _ _ Hmiss). by cbn.
Qed.

(** C4: [Register] fails, with the already-registered error for the name,
    exactly when the name is bound; it then leaves the registry as it was,
    so that [Get] still returns the plugin bound before.  When the name is
    unbound it returns nil and binds the name to the plugin, leaving the
    other names as they were. *)
Theorem Register_spec r name B :
  (fst (Register name B r) = Some (ErrAlreadyRegistered name)
     <-> is_Some (reg_plugins r !! name))
  /\ (fst (Register name B r) = None <-> reg_plugins r !! name = None)
  /\ (forall A,
        reg_plugins r !! name = Some A ->
        Register name B r = (Some (ErrAlreadyRegistered name), r)
        /\ Get name (snd (Register name B r)) = (Ok A, r))
  /\ (reg_plugins r !! name = None ->
        Register name B r =
          (None, {| reg_plugins := <[name := B]> (reg_plugins r) |})
        /\ fst (Get name (snd (Register name B r))) = Ok B
        /\ (forall other, other <> name ->
              reg_plugins (snd (Register name B r)) !! other =
              reg_plugins r !! other)).
Proof.
  unfold Register.
  destruct (reg_plugins r !! name) as [A0|] eqn:Hn; cbn [fst snd].
  - split; [split; [by eexists|done]|].
    split; [split; [done|done]|].
    split; [|done]. intros A [= <-]. split; [done|]. by apply Get_bound.
  - split; [split; [done|by intros [? ?]]|].
    split; [done|]. split; [done|]. intros _. split; [done|].
    split.
    + unfold Get. cbn [reg_plugins]. by rewrite lookup_insert_eq.
    + intros other Hne. cbn [reg_plugins]. by rewrite lookup_insert_ne.
Qed.

(** C8: [Get] fails, with the not-found error for the name, exactly when
    the name is unbound; otherwise it returns the plugin bound to the
    name.  Either way the registry is left as it was. *)
Theorem Get_spec r name :
  (failure (fst (Get name r)) = Some (ErrNotFound name)
     <-> reg_plugins r !! name = None)
  /\ (is_Some (failure (fst (Get name r)))
     <-> reg_plugins r !! name = None)
  /\ (forall plugin,
        reg_plugins r !! name = Some plugin ->
        fst (Get name r) = Ok plugin)
  /\ value (fst (Get name r)) = reg_plugins r !! name
  /\ snd (Get name r) = r.
Proof.
  unfold Get. destruct (reg_plugins r !! name) as [plugin|]; cbn.
  - split; [done|]. split; [split; [by intros [? ?]|done]|].
    split; [by intros ? [= <-]|done].
  - split; [done|]. split; [split; [done|by eexists]|]. done.
Qed.

End RegistryFacts.

(** ** The sample plugins at work *)

(** [strict_pipeline] on a fresh context: [greet] succeeds, [boom] at
    index 1 fails, [tick] never runs and the counter stays at zero. *)
Lemma Execute_abort_first_failure_sample :
  exists err,
    fst (Execute (boot strict_pipeline (fresh "World"))) = Some err
    /\ PluginIndex err = Some 1%Z
    /\ Unwrap err = Some (PluginFailure "boom")
    /\ world (snd (Execute (boot strict_pipeline (fresh "World")))) =
       {| ctx := SetData (NewContext "World") "Hello, World!"; ext := O |}
    /\ invoked (snd (Execute (boot strict_pipeline (fresh "World")))) =
       [0%Z; 1%Z]
    /\ (forall j,
          j ∈ invoked (snd (Execute (boot strict_pipeline (fresh "World")))) ->
          (0 <= j <= 1)%Z).
Proof.
  apply (Execute_abort_first_failure string nat strict_pipeline
           [greet] boom [tick] (fresh "World")
           {| ctx := SetData (NewContext "World") "Hello, World!"; ext := O |});
    reflexivity.
Defined.

(** [Execute_continue_collects] on [lenient_pipeline]: the failures of the
    plugins at indices 0 and 2 are recorded, [tick] in between has run. *)
Lemma Execute_continue_collects_sample :
  fst (Execute (boot lenient_pipeline (fresh "World"))) = None
  /\ invoked (snd (Execute (boot lenient_pipeline (fresh "World")))) =
     [0%Z; 1%Z; 2%Z]
  /\ Errors (ctx (world (snd (Execute (boot lenient_pipeline (fresh "World")))))) =
     [PipelineError 0 (PluginFailure "boom");
      PipelineError 2 (PluginFailure "boom")]
  /\ map PluginIndex
       (Errors (ctx (world (snd (Execute (boot lenient_pipeline (fresh "World"))))))) =
     [Some 0%Z; Some 2%Z].
Proof.
  destruct (Execute_continue_collects string nat lenient_pipeline
              (fresh "World") eq_refl eq_refl) as (Hr & Hi & Herrs).
  destruct Herrs as (He & _ & Hidx & _).
  { repeat constructor. }
  repeat split; assumption.
Defined.

(** C2 without that proviso: [tattle_pipeline] runs under [ContinueOnError]
    from a context with no errors, its one plugin succeeds, so no plugin
    fails, yet the context ends with one error, and not a wrapped one. *)
Lemma Execute_continue_tattle :
  errorStrategy tattle_pipeline = ContinueOnError
  /\ Errors (ctx (fresh "World")) = []
  /\ failures 0 (plugins tattle_pipeline) (fresh "World") = []
  /\ fst (Execute (boot tattle_pipeline (fresh "World"))) = None
  /\ invoked (snd (Execute (boot tattle_pipeline (fresh "World")))) = [0%Z]
  /\ Errors (ctx (world (snd (Execute (boot tattle_pipeline (fresh "World")))))) =
     [PluginFailure "note"]
  /\ length (Errors (ctx (world (snd (Execute (boot tattle_pipeline (fresh "World"))))))) <>
     length (failures 0 (plugins tattle_pipeline) (fresh "World")).
Proof. repeat split; try reflexivity. cbn. lia. Qed.

(** [Execute_abort_keeps_errors] on [strict_pipeline], which fails at
    index 1. *)
Lemma Execute_abort_keeps_errors_sample :
  Errors (ctx (world (snd (Execute (boot strict_pipeline (fresh "World")))))) = [].
Proof.
  apply (Execute_abort_keeps_errors string nat strict_pipeline (fresh "World")).
  - reflexivity.
  - repeat constructor.
Defined.

(** [Execute_all_succeed] on [happy_plugins]: greeting, counter and mark
    are all there, made in that order. *)
Lemma Execute_all_succeed_sample :
  Execute (boot (fold_left Use happy_plugins (NewPipeline AbortOnError))
                (fresh "World")) =
  (None,
   {| pipe := fold_left Use happy_plugins (NewPipeline AbortOnError);
      world :=
        {| ctx := Context_Set (SetData (NewContext "World") "Hello, World!")
                    "seen" "yes";
           ext := 1%nat |};
      invoked := [0%Z; 1%Z; 2%Z] |}).
Proof.
  apply (Execute_all_succeed string nat AbortOnError happy_plugins
           (fresh "World")).
  reflexivity.
Defined.

(** [Context_set_get] at the key seen of a fresh context. *)
Lemma Context_set_get_sample :
  Context_Get "" (Context_Set (NewContext "World") "seen" "yes") "seen" =
    ("yes", true)
  /\ Context_Get "" (Context_Set (NewContext "World") "seen" "yes") "other" =
    ("", false)
  /\ GetState "" (Context_Set (NewContext "World") "seen" "yes") "seen" =
    ("", false)
  /\ GetState "" (SetState (NewContext "World") "seen" "yes") "seen" =
    ("yes", true)
  /\ Context_Get "" (SetState (NewContext "World") "seen" "yes") "seen" =
    ("", false).
Proof.
  destruct (Context_set_get string "" (NewContext "World") "seen" "yes")
    as [(Hget & _ & _ & _ & Hother & Hst) (Hget' & _ & _ & _ & _ & Hmd)].
  split; [exact Hget|].
  split; [exact (proj2 (Hother "other" ltac:(discriminate)))|].
  split; [exact (Hst "seen")|].
  split; [exact Hget'|exact (Hmd "seen")].
Defined.

(** [BuildPipeline_spec] on [sample_registry]: b then a resolve, in that
    order; a, missing, b stops at missing. *)
Lemma BuildPipeline_spec_sample :
  BuildPipeline ["b"; "a"] ContinueOnError sample_registry =
    (Ok {| plugins := [tick; greet]; errorStrategy := ContinueOnError |},
     sample_registry)
  /\ BuildPipeline ["a"; "missing"; "b"] AbortOnError sample_registry =
    (Fail (ErrBuildPipeline (ErrNotFound "missing")), sample_registry)
  /\ value (fst (BuildPipeline ["a"; "missing"; "b"] AbortOnError
                   sample_registry)) = None.
Proof.
  split.
  - apply (proj1 (BuildPipeline_spec string nat sample_registry
                    ["b"; "a"] ContinueOnError)).
    repeat constructor.
  - destruct (proj2 (BuildPipeline_spec string nat sample_registry
                       ["a"; "missing"; "b"] AbortOnError)
                ["a"] "missing" ["b"] eq_refl) as (Hb & Hv & _).
    + repeat constructor. by exists greet.
    + reflexivity.
    + split; [exact Hb|exact Hv].
Defined.

(** [Register_spec] on [sample_registry]: registering [boom] under the
    bound name a fails and [Get] still returns [greet]; under the unbound
    name c it succeeds. *)
Lemma Register_spec_sample :
  Register "a" boom sample_registry =
    (Some (ErrAlreadyRegistered "a"), sample_registry)
  /\ Get "a" (snd (Register "a" boom sample_registry)) =
    (Ok greet, sample_registry)
  /\ fst (Register "c" boom sample_registry) = None
  /\ fst (Get "c" (snd (Register "c" boom sample_registry))) = Ok boom.
Proof.
  destruct (Register_spec string nat sample_registry "a" boom)
    as (_ & _ & Hbound & _).
  destruct (Hbound greet eq_refl) as [Hreg Hget].
  destruct (Register_spec string nat sample_registry "c" boom)
    as (_ & _ & _ & Hfree).
  destruct (Hfree eq_refl) as (Hreg' & Hget' & _).
  split; [exact Hreg|]. split; [exact Hget|].
  split; [by rewrite Hreg'|exact Hget'].
Defined.

(** [Get_spec] on [sample_registry]: missing is not found, b is [tick]. *)
Lemma Get_spec_sample :
  failure (fst (Get "missing" sample_registry)) = Some (ErrNotFound "missing")
  /\ fst (Get "b" sample_registry) = Ok tick
  /\ snd (Get "b" sample_registry) = sample_registry.
Proof.
  destruct (Get_spec string nat sample_registry "missing") as (Hnf & _).
  destruct (Get_spec string nat sample_registry "b") as (_ & _ & Hb & _ & Hr).
  split; [exact (proj2 Hnf eq_refl)|].
  split; [exact (Hb tick eq_refl)|exact Hr].
Defined.



(** ** More on the pipeline executor *)

Section PipelineMore.

Variable any : Type.
Variable Ext : Type.

Implicit Types (ps pre post more : list (Plugin any Ext)).
Implicit Types (m : Machine any Ext) (w : World any Ext).
Implicit Types (p : Pipeline any Ext) (q : Plugin any Ext).

(** The loop over [ps1 ++ ps2] is the loop over [ps1] and then, unless
    that returned an error, the loop over [ps2] with the indices going
    on. *)
Lemma Execute_loop_app ps1 ps2 i m :
  Execute_loop i (ps1 ++ ps2) m =
  match fst (Execute_loop i ps1 m) with
  | Some _ => Execute_loop i ps1 m
  | None =>
      Execute_loop (i + Z.of_nat (length ps1)) ps2 (snd (Execute_loop i ps1 m))
  end.
Proof.
  revert i m. induction ps1 as [|plugin ps1 IH]; intros i m.
  - cbn. by rewrite Z.add_0_r.
  - cbn [app]. rewrite !Execute_loop_cons.
    replace (i + Z.of_nat (length (plugin :: ps1)))%Z
      with (i + 1 + Z.of_nat (length ps1))%Z by (cbn [length]; lia).
    destruct (snd (plugin (world m))) as [e|]; [|apply IH].
    destruct (errorStrategy (pipe m)); [reflexivity|apply IH].
Qed.

(** The loop reads the strategy of the pipeline only. *)
Lemma Execute_loop_with_pipe ps i m p :
  errorStrategy p = errorStrategy (pipe m) ->
  Execute_loop i ps (with_pipe p m) =
  (fst (Execute_loop i ps m), with_pipe p (snd (Execute_loop i ps m))).
Proof.
  revert i m. induction ps as [|plugin rest IH]; intros i m Hs; [reflexivity|].
  rewrite !Execute_loop_cons. cbn [with_pipe pipe world invoked]. rewrite Hs.
  destruct (snd (plugin (world m))) as [e|].
  - destruct (errorStrategy (pipe m)) eqn:Hm; [reflexivity|].
    apply (IH _ (mkMachine (pipe m) _ _)). cbn [pipe]. congruence.
  - apply (IH _ (mkMachine (pipe m) _ _)). exact Hs.
Qed.

(** X1: executing a pipeline to which more plugins were appended with
    [Use] is executing the pipeline as it was and then, unless that
    returned an error, running the appended plugins on what it left, with
    the indices going on from the number of plugins before; when it
    returned an error, the appended plugins are not run. *)
Theorem Execute_after_Use p more w :
  Execute (boot (fold_left Use more p) w) =
  match fst (Execute (boot p w)) with
  | Some err =>
      (Some err, with_pipe (fold_left Use more p) (snd (Execute (boot p w))))
  | None =>
      Execute_loop (Z.of_nat (length (plugins p))) more
        (with_pipe (fold_left Use more p) (snd (Execute (boot p w))))
  end.
Proof.
  unfold Execute. cbn [boot pipe].
  destruct (plugins_fold_Use any Ext more p) as [Hpl Hst]. rewrite Hpl.
  rewrite Execute_loop_app.
  change (boot (fold_left Use more p) w)
    with (with_pipe (fold_left Use more p) (boot p w)).
  rewrite (Execute_loop_with_pipe (plugins p) 0 (boot p w) _ Hst).
  cbn [fst snd]. rewrite Z.add_0_l.
  by destruct (fst (Execute_loop 0 (plugins p) (boot p w))).
Qed.

(** A run of plugins either goes through or stops at a first failure. *)
Lemma run_ok_cases ps w :
  (exists w', run_ok ps w = Some w')
  \/ (exists pre q post w1 w2 e,
        ps = pre ++ q :: post
        /\ run_ok pre w = Some w1
        /\ q w1 = (w2, Some e)).
Proof.
  revert w. induction ps as [|plugin rest IH]; intros w.
  - left. by exists w.
  - cbn [run_ok]. destruct (plugin w) as [w1 [e|]] eqn:Hq.
    + right. exists [], plugin, rest, w, w1, e. by repeat split.
    + destruct (IH w1) as [[w' Hok]|(pre & q & post & wa & wb & e & -> & Hpre & Hf)].
      * left. by exists w'.
      * right. exists (plugin :: pre), q, post, wa, wb, e.
        cbn [run_ok app]. rewrite Hq. by repeat split.
Qed.

(** X2: under [AbortOnError] there are two outcomes and no other.  Either
    every plugin returns nil along the run, and [Execute] returns nil
    after invoking all of them; or some plugin is the first to fail, and
    [Execute] returns that failure wrapped with the plugin's index, after
    invoking the plugins up to it and none behind. *)
Theorem Execute_abort_cases p w :
  errorStrategy p = AbortOnError ->
  (exists w',
     run_ok (plugins p) w = Some w'
     /\ Execute (boot p w) =
        (None,
         {| pipe := p; world := w';
            invoked := indices 0 (length (plugins p)) |}))
  \/
  (exists pre q post w1 w2 e,
     plugins p = pre ++ q :: post
     /\ run_ok pre w = Some w1
     /\ q w1 = (w2, Some e)
     /\ Execute (boot p w) =
        (Some (PipelineError (Z.of_nat (length pre)) e),
         {| pipe := p; world := w2;
            invoked := indices 0 (S (length pre)) |})).
Proof.
  intros Hs. unfold Execute. cbn [boot pipe].
  destruct (run_ok_cases (plugins p) w)
    as [[w' Hok]|(pre & q & post & w1 & w2 & e & Hp & Hpre & Hq)].
  - left. exists w'. split; [exact Hok|].
    rewrite <- (app_nil_r (plugins p)) at 1.
    by rewrite (Execute_loop_ok_prefix any Ext (plugins p) [] 0 (boot p w) w' Hok).
  - right. exists pre, q, post, w1, w2, e. repeat (split; [assumption|]).
    rewrite Hp.
    rewrite (Execute_loop_ok_prefix any Ext pre (q :: post) 0 (boot p w) w1 Hpre).
    rewrite Execute_loop_cons. cbn [world pipe invoked boot].
    rewrite Hq, Hs. cbn [fst snd app]. by rewrite <- indices_snoc.
Qed.

(** The log of the loop: a run of consecutive indices from [i], all of
    them when the loop returns nil, up to the failing plugin's when it
    returns an error, which only [AbortOnError] makes it do. *)
Lemma Execute_loop_invoked ps i m :
  exists k : nat,
    (k <= length ps)%nat
    /\ invoked (snd (Execute_loop i ps m)) = invoked m ++ indices i k
    /\ (fst (Execute_loop i ps m) = None -> k = length ps)
    /\ (forall err,
          fst (Execute_loop i ps m) = Some err ->
          errorStrategy (pipe m) = AbortOnError
          /\ (0 < k)%nat
          /\ exists e, err = PipelineError (i + Z.of_nat k - 1) e).
Proof.
  revert i m. induction ps as [|plugin rest IH]; intros i m.
  - exists O. cbn. rewrite app_nil_r. repeat split; try done.
  - rewrite Execute_loop_cons.
    destruct (snd (plugin (world m))) as [e|].
    + destruct (errorStrategy (pipe m)) eqn:Hs.
      * exists 1%nat. cbn [fst snd invoked indices length].
        split; [lia|]. split; [reflexivity|]. split; [discriminate|].
        intros err [= <-]. split; [reflexivity|]. split; [lia|].
        exists e. f_equal. lia.
      * destruct (IH (i + 1)%Z
          {| pipe := pipe m;
             world := record_failure (i, e) (fst (plugin (world m)));
             invoked := invoked m ++ [i] |}) as (k & Hk & Hi & Hn & He).
        exists (S k). cbn [length indices]. split; [lia|].
        split; [by rewrite Hi; cbn [invoked]; rewrite <- app_assoc|].
        split; [by intros ->%Hn|].
        intros err [Hab _]%He. cbn [pipe] in Hab. congruence.
    + destruct (IH (i + 1)%Z
        {| pipe := pipe m; world := fst (plugin (world m));
           invoked := invoked m ++ [i] |}) as (k & Hk & Hi & Hn & He).
      exists (S k). cbn [length indices]. split; [lia|].
      split; [by rewrite Hi; cbn [invoked]; rewrite <- app_assoc|].
      split; [by intros ->%Hn|].
      intros err (Hab & Hpos & e' & ->)%He. cbn [pipe] in Hab.
      split; [exact Hab|]. split; [lia|]. exists e'. f_equal. lia.
Qed.

(** X3: whatever the strategy and whatever the plugins return, [Execute]
    invokes the plugins at [0, 1, ..., k-1] for some [k] up to their
    number: in slice order, without a gap and none twice.  When it returns
    nil every plugin was invoked; it returns an error only under
    [AbortOnError], and that error carries the index of the last plugin
    invoked. *)
Theorem Execute_invoked_prefix p w :
  exists k : nat,
    (k <= length (plugins p))%nat
    /\ invoked (snd (Execute (boot p w))) = indices 0 k
    /\ NoDup (invoked (snd (Execute (boot p w))))
    /\ (fst (Execute (boot p w)) = None -> k = length (plugins p))
    /\ (forall err,
          fst (Execute (boot p w)) = Some err ->
          errorStrategy p = AbortOnError
          /\ PluginIndex err = Some (Z.of_nat k - 1)%Z
          /\ last (invoked (snd (Execute (boot p w)))) = PluginIndex err).
Proof.
  unfold Execute. cbn [boot pipe].
  destruct (Execute_loop_invoked (plugins p) 0 (boot p w))
    as (k & Hk & Hi & Hn & He).
  change (invoked (boot p w)) with (@nil Z) in Hi. cbn [app] in Hi. exists k.
  split; [exact Hk|]. split; [exact Hi|].
  split; [rewrite Hi; apply indices_NoDup|]. split; [exact Hn|].
  intros err (Hab & Hpos & e & ->)%He. cbn [boot pipe] in Hab.
  split; [exact Hab|]. cbn [PluginIndex]. split; [f_equal; lia|].
  rewrite Hi. destruct k as [|k]; [lia|].
  rewrite indices_snoc, last_snoc. f_equal. lia.
Qed.

(** X4: under [ContinueOnError], when no plugin writes the context's
    errors itself, [Execute] keeps the errors the context already had, in
    place, and appends the wrapped failures of this run behind them: errors
    of earlier runs on the same context are never dropped or reordered. *)
Theorem Execute_continue_accumulates p w :
  errorStrategy p = ContinueOnError ->
  Forall keeps_errors (plugins p) ->
  Errors (ctx (world (snd (Execute (boot p w))))) =
  Errors (ctx w) ++ map wrap (failures 0 (plugins p) w).
Proof.
  intros Hs Hk. unfold Execute. cbn [boot pipe].
  by rewrite Execute_loop_continue_errors.
Qed.

End PipelineMore.

(** ** More on the context carrier *)

Section ContextMore.

Variable any : Type.
Variable nilAny : any.

Implicit Types (c : Context any) (k : string) (v : any).
Implicit Types (kvs : list (string * any)) (errs : list error).

Lemma set_all_snoc kvs k v c :
  set_all (kvs ++ [(k, v)]) c = Context_Set (set_all kvs c) k v.
Proof. unfold set_all. by rewrite fold_left_app. Qed.

Lemma setstate_all_snoc kvs k v c :
  setstate_all (kvs ++ [(k, v)]) c = SetState (setstate_all kvs c) k v.
Proof. unfold setstate_all. by rewrite fold_left_app. Qed.

Lemma last_set_snoc kvs k' v k :
  last_set (kvs ++ [(k', v)]) k =
  if bool_decide (k' = k) then Some v else last_set kvs k.
Proof.
  unfold last_set. rewrite rev_app_distr. cbn [rev app find fst].
  by destruct (bool_decide (k' = k)).
Qed.

Lemma set_all_fields kvs c k :
  Metadata (set_all kvs c) !! k =
    match last_set kvs k with
    | Some v => Some v
    | None => Metadata c !! k
    end
  /\ state (set_all kvs c) = state c
  /\ Data (set_all kvs c) = Data c
  /\ Errors (set_all kvs c) = Errors c.
Proof.
  induction kvs as [|[k' v] kvs IH] using rev_ind; [done|].
  rewrite set_all_snoc, last_set_snoc. cbn [Context_Set Metadata state Data Errors].
  destruct IH as (IHm & IHs & IHd & IHe). repeat split; try done.
  case_bool_decide as Hk.
  - subst. by rewrite lookup_insert_eq.
  - by rewrite lookup_insert_ne.
Qed.

Lemma setstate_all_fields kvs c k :
  state (setstate_all kvs c) !! k =
    match last_set kvs k with
    | Some v => Some v
    | None => state c !! k
    end
  /\ Metadata (setstate_all kvs c) = Metadata c
  /\ Data (setstate_all kvs c) = Data c
  /\ Errors (setstate_all kvs c) = Errors c.
Proof.
  induction kvs as [|[k' v] kvs IH] using rev_ind; [done|].
  rewrite setstate_all_snoc, last_set_snoc. cbn [SetState Metadata state Data Errors].
  destruct IH as (IHm & IHs & IHd & IHe). repeat split; try done.
  case_bool_decide as Hk.
  - subst. by rewrite lookup_insert_eq.
  - by rewrite lookup_insert_ne.
Qed.

(** X5: after any sequence of [Set] calls, [Get] of a key returns the
    value of the last call that wrote that key, with true, and what the
    context had under the key before when no call wrote it; on a context
    fresh from [NewContext] that is nil and false.  The state map is not
    touched.  [SetState] and [GetState] behave the same way on the state
    map and leave the metadata alone. *)
Theorem Context_last_write_wins c kvs k (data : any) :
  Context_Get nilAny (set_all kvs c) k =
    match last_set kvs k with
    | Some v => (v, true)
    | None => Context_Get nilAny c k
    end
  /\ GetState nilAny (set_all kvs c) k = GetState nilAny c k
  /\ GetState nilAny (setstate_all kvs c) k =
    match last_set kvs k with
    | Some v => (v, true)
    | None => GetState nilAny c k
    end
  /\ Context_Get nilAny (setstate_all kvs c) k = Context_Get nilAny c k
  /\ Context_Get nilAny (NewContext data) k = (nilAny, false)
  /\ GetState nilAny (NewContext data) k = (nilAny, false).
Proof.
  destruct (set_all_fields kvs c k) as (Hm & Hs & _ & _).
  destruct (setstate_all_fields kvs c k) as (Hs' & Hm' & _ & _).
  unfold Context_Get, GetState. rewrite Hm, Hs, Hs', Hm'.
  cbn [NewContext Metadata state]. rewrite !lookup_empty.
  repeat split; by destruct (last_set kvs k).
Qed.

(** X6: a sequence of [AddError] calls appends the errors behind the ones
    the context had, in the order of the calls, and changes nothing
    else. *)
Theorem AddError_appends errs c :
  Errors (add_errors errs c) = Errors c ++ errs
  /\ Data (add_errors errs c) = Data c
  /\ Metadata (add_errors errs c) = Metadata c
  /\ state (add_errors errs c) = state c.
Proof.
  revert c. induction errs as [|err errs IH]; intros c.
  - cbn. by rewrite app_nil_r.
  - unfold add_errors. cbn [fold_left]. fold (add_errors errs (AddError c err)).
    destruct (IH (AddError c err)) as (-> & -> & -> & ->).
    cbn [AddError Errors Data Metadata state]. by rewrite <- app_assoc.
Qed.

End ContextMore.

(** ** More on the registry *)

Section RegistryMore.

Variable any : Type.
Variable Ext : Type.

Implicit Types (r : Registry any Ext) (name : string).
Implicit Types (plugin A B : Plugin any Ext) (names pre post : list string).
Implicit Types (p pipeline : Pipeline any Ext).
Implicit Types (l : list (string * Plugin any Ext)).

(** What one [Register] does to the binding of any name. *)
Lemma Register_lookup r name B other :
  reg_plugins (snd (Register name B r)) !! other =
  match reg_plugins r !! other with
  | Some A => Some A
  | None => if bool_decide (name = other) then Some B else None
  end.
Proof.
  unfold Register. destruct (reg_plugins r !! name) as [A0|] eqn:Hn; cbn [snd].
  - destruct (reg_plugins r !! other) eqn:Ho; [done|].
    case_bool_decide; [congruence|done].
  - cbn [reg_plugins]. case_bool_decide as Hk.
    + subst. by rewrite lookup_insert_eq, Hn.
    + rewrite lookup_insert_ne by done. by destruct (reg_plugins r !! other).
Qed.

(** Further [Register] calls leave a binding as it is. *)
Lemma register_all_keeps l r name A :
  reg_plugins r !! name = Some A ->
  reg_plugins (register_all l r) !! name = Some A.
Proof.
  revert r. induction l as [|[n B] l IH]; intros r Hn; [exact Hn|].
  unfold register_all. cbn [fold_left fst snd].
  apply IH. by rewrite Register_lookup, Hn.
Qed.

(** X7: after any sequence of [Register] calls a name that was bound
    before is bound to the same plugin, and a name that was not is bound
    to the plugin of the first call that registered it, or unbound when
    no call did: a binding, once made, is never replaced or removed. *)
Theorem Register_first_wins l r name :
  reg_plugins (register_all l r) !! name =
  match reg_plugins r !! name with
  | Some A => Some A
  | None => first_bound l name
  end.
Proof.
  revert r. induction l as [|[n B] l IH]; intros r.
  - cbn. by destruct (reg_plugins r !! name).
  - unfold register_all. cbn [fold_left fst snd].
    fold (register_all l (snd (Register n B r))).
    rewrite IH, Register_lookup. unfold first_bound. cbn [find fst].
    destruct (reg_plugins r !! name); [done|].
    by destruct (bool_decide (n = name)).
Qed.

(** What the loop of [BuildPipeline] returns, read backwards. *)
Lemma BuildPipeline_loop_inv names pipeline r :
  snd (BuildPipeline_loop names pipeline r) = r
  /\ match fst (BuildPipeline_loop names pipeline r) with
     | Ok p =>
         exists ps,
           Forall2 (fun name plugin => reg_plugins r !! name = Some plugin)
             names ps
           /\ p = {| plugins := plugins pipeline ++ ps;
                     errorStrategy := errorStrategy pipeline |}
     | Fail err =>
         exists pre missing post,
           names = pre ++ missing :: post
           /\ Forall (fun name => is_Some (reg_plugins r !! name)) pre
           /\ reg_plugins r !! missing = None
           /\ err = ErrBuildPipeline (ErrNotFound missing)
     end.
Proof.
  revert pipeline. induction names as [|name names IH]; intros pipeline.
  - cbn. split; [done|]. exists []. split; [constructor|].
    rewrite app_nil_r. by destruct pipeline.
  - cbn [BuildPipeline_loop]. unfold bind at 1 2. unfold Get.
    destruct (reg_plugins r !! name) as [plugin|] eqn:Hn.
    + destruct (IH (Use pipeline plugin)) as [Hr Hres]. split; [exact Hr|].
      destruct (fst (BuildPipeline_loop names (Use pipeline plugin) r))
        as [p|err].
      * destruct Hres as (ps & Hall & ->). exists (plugin :: ps).
        split; [by constructor|]. cbn [Use plugins errorStrategy].
        by rewrite <- app_assoc.
      * destruct Hres as (pre & missing & post & -> & Hpre & Hmiss & ->).
        exists (name :: pre), missing, post.
        split; [done|]. split; [constructor; [by eexists|done]|]. done.
    + cbn. split; [done|]. exists [], name, names. by repeat split.
Qed.

(** X8: a list of names that [BuildPipeline] resolves keeps resolving to
    the same pipeline after any further [Register] calls, whether they
    succeed or not. *)
Theorem BuildPipeline_stable names strategy r p l :
  fst (BuildPipeline names strategy r) = Ok p ->
  fst (BuildPipeline names strategy (register_all l r)) = Ok p.
Proof.
  unfold BuildPipeline. intros Hok.
  destruct (BuildPipeline_loop_inv names (NewPipeline strategy) r) as [_ Hres].
  rewrite Hok in Hres. destruct Hres as (ps & Hall & ->).
  rewrite (BuildPipeline_loop_resolved any Ext names (register_all l r)
             (NewPipeline strategy) ps); [done|].
  eapply Forall2_impl; [exact Hall|]. cbn. intros name plugin Hn.
  by apply register_all_keeps.
Qed.

(** X9: what [BuildPipeline] returns tells how the names resolved.  A
    pipeline is returned exactly when every name is bound; it then has the
    given strategy and one plugin for each name, the one bound to it, in
    the same order, a name listed twice giving its plugin twice.  An error
    is always the build error around the not-found error of a name of the
    list that is unbound. *)
Theorem BuildPipeline_inv names strategy r :
  (is_Some (value (fst (BuildPipeline names strategy r)))
     <-> Forall (fun name => is_Some (reg_plugins r !! name)) names)
  /\ (forall p,
        fst (BuildPipeline names strategy r) = Ok p ->
        errorStrategy p = strategy
        /\ length (plugins p) = length names
        /\ Forall2 (fun name plugin => reg_plugins r !! name = Some plugin)
             names (plugins p))
  /\ (forall err,
        fst (BuildPipeline names strategy r) = Fail err ->
        exists missing,
          missing ∈ names
          /\ reg_plugins r !! missing = None
          /\ err = ErrBuildPipeline (ErrNotFound missing)).
Proof.
  unfold BuildPipeline.
  destruct (BuildPipeline_loop_inv names (NewPipeline strategy) r) as [_ Hres].
  destruct (fst (BuildPipeline_loop names (NewPipeline strategy) r))
    as [p0|err0].
  - destruct Hres as (ps & Hall & ->). cbn [NewPipeline plugins app value].
    split; [|split].
    + split; [intros _|by eexists].
      clear -Hall. induction Hall; constructor; [by eexists|done].
    + intros p [= <-]. cbn [plugins errorStrategy]. split; [done|].
      split; [symmetry; by eapply Forall2_length|done].
    + intros err [=].
  - destruct Hres as (pre & missing & post & -> & Hpre & Hmiss & ->).
    cbn [value]. split; [|split].
    + split; [by intros [? ?]|]. intros Hall. exfalso.
      apply Forall_app in Hall as [_ Hall]. apply Forall_cons in Hall as [[? Hb] _].
      congruence.
    + intros p [=].
    + intros err [= <-]. exists missing. split; [|done].
      apply elem_of_app. right. apply elem_of_cons. by left.
Qed.

End RegistryMore.

(** ** The conversation state plugin *)

Section ChatbotFacts.

Import chatbot.

Variable Ext : Type.

Implicit Types (w : World val Ext) (msg : Message) (p : ContextManagerPlugin).
Implicit Types (h : list Message).

Lemma NewContextManagerPlugin_positive n :
  (0 < maxHistorySize (NewContextManagerPlugin n))%Z.
Proof.
  unfold NewContextManagerPlugin.
  destruct (Z.leb_spec n 0); cbn [maxHistorySize]; lia.
Qed.

Lemma limit_last_n n h :
  (0 <= n)%Z -> limit n h = last_n (Z.to_nat n) h.
Proof.
  intros Hn. unfold limit, last_n.
  destruct (Z.ltb_spec n (Z.of_nat (length h))).
  - f_equal. lia.
  - replace (length h - Z.to_nat n)%nat with O by lia. reflexivity.
Qed.

Lemma last_n_length {A : Type} (n : nat) (l : list A) :
  length (last_n n l) = Nat.min n (length l).
Proof. unfold last_n. rewrite length_drop. lia. Qed.

Lemma last_n_snoc_last {A : Type} (n : nat) (l : list A) (x : A) :
  (0 < n)%nat -> last (last_n n (l ++ [x])) = Some x.
Proof.
  intros Hn. unfold last_n. rewrite length_app. cbn [length].
  rewrite drop_app_le by lia. by rewrite last_snoc.
Qed.

(** Windows of the same width compose. *)
Lemma last_n_last_n_app {A : Type} (n : nat) (a b : list A) :
  last_n n (last_n n a ++ b) = last_n n (a ++ b).
Proof.
  unfold last_n. rewrite !length_app, length_drop.
  destruct (decide (length a <= n)%nat) as [Hle|Hgt].
  - replace (length a - n)%nat with O by lia. rewrite drop_0. f_equal. lia.
  - replace (length a - (length a - n) + length b - n)%nat
      with (length b) by lia.
    replace (length a + length b - n)%nat
      with ((length a - n) + length b)%nat by lia.
    rewrite <- drop_drop. f_equal.
    rewrite (drop_app_le a b) by lia. reflexivity.
Qed.

(** What [GetState] finds under the session's key, by [history_of]. *)
Lemma GetState_history msg w :
  History
    match GetState VNil (ctx w) (stateKey msg) with
    | (VConversationState st, true) => st
    | (_, _) => newConversationState
    end = history_of msg w.
Proof.
  unfold GetState, history_of.
  destruct (state (ctx w) !! stateKey msg) as [[]|]; reflexivity.
Qed.

(** The world after [Execute] on a message, with the history as a
    window. *)
Lemma ContextManagerPlugin_Execute_message p w msg :
  (0 <= maxHistorySize p)%Z ->
  GetData (ctx w) = VMessage msg ->
  exists st,
    ContextManagerPlugin_Execute p w =
      ({| ctx := Context_Set
                   (SetState (ctx w) (stateKey msg) (VConversationState st))
                   "conversation_state" (VConversationState st);
          ext := ext w |}, None)
    /\ History st =
       last_n (Z.to_nat (maxHistorySize p)) (history_of msg w ++ [msg]).
Proof.
  intros Hp Hd. unfold ContextManagerPlugin_Execute. rewrite Hd.
  eexists. split; [reflexivity|]. cbn [History].
  by rewrite limit_last_n, GetState_history.
Qed.

(** X10: [ContextManagerPlugin.Execute], for a plugin made by
    [NewContextManagerPlugin] with any size.  On a context whose data is
    a [Message] it returns nil and stores one and the same conversation
    state under the session's state key and under the metadata key
    conversation_state; its history is the history found under the state
    key with the message appended, cut to its last [maxHistorySize]
    entries, so it is never empty, never longer than [maxHistorySize], and
    ends with the message.  On any other data it returns an error and
    leaves the context as it was. *)
Theorem ContextManagerPlugin_Execute_spec n w :
  (forall msg,
     GetData (ctx w) = VMessage msg ->
     exists st,
       ContextManagerPlugin_Execute (NewContextManagerPlugin n) w =
         ({| ctx := Context_Set
                      (SetState (ctx w) (stateKey msg) (VConversationState st))
                      "conversation_state" (VConversationState st);
             ext := ext w |}, None)
       /\ History st =
          last_n (Z.to_nat (maxHistorySize (NewContextManagerPlugin n)))
            (history_of msg w ++ [msg])
       /\ (0 < length (History st))%nat
       /\ (Z.of_nat (length (History st))
           <= maxHistorySize (NewContextManagerPlugin n))%Z
       /\ last (History st) = Some msg)
  /\ ((forall msg, GetData (ctx w) <> VMessage msg) ->
      ContextManagerPlugin_Execute (NewContextManagerPlugin n) w =
        (w, Some (PluginFailure "expected Message type in context data"))).
Proof.
  pose proof (NewContextManagerPlugin_positive n) as Hpos. split.
  - intros msg Hd.
    destruct (ContextManagerPlugin_Execute_message
                (NewContextManagerPlugin n) w msg) as (st & Hex & Hh);
      [lia|exact Hd|].
    exists st. split; [exact Hex|]. split; [exact Hh|].
    rewrite Hh, last_n_length, length_app. cbn [length].
    split; [lia|]. split; [lia|]. apply last_n_snoc_last. lia.
  - intros Hd. unfold ContextManagerPlugin_Execute.
    destruct (GetData (ctx w)) as [|msg| | |]; try reflexivity.
    by destruct (Hd msg).
Qed.

(** One [turn] moves the session's window by one message. *)
Lemma history_of_turn p w msg msg0 :
  (0 <= maxHistorySize p)%Z ->
  SessionID msg = SessionID msg0 ->
  history_of msg0 (turn p w msg) =
  last_n (Z.to_nat (maxHistorySize p)) (history_of msg0 w ++ [msg]).
Proof.
  intros Hp Hs. unfold turn.
  destruct (ContextManagerPlugin_Execute_message p
              {| ctx := SetData (ctx w) (VMessage msg); ext := ext w |} msg Hp)
    as (st & -> & Hh); [reflexivity|].
  cbn [fst]. unfold history_of at 1.
  assert (Hk : stateKey msg0 = stateKey msg) by (unfold stateKey; by rewrite Hs).
  cbn [ctx Context_Set SetState state]. rewrite Hk, lookup_insert_eq, Hh.
  unfold history_of. cbn [ctx SetData state]. by rewrite Hk.
Qed.

(** X11: on a context that is kept from one message to the next, the
    history stored for a session after any number of turns for that
    session is a sliding window: the last [maxHistorySize] of the history
    the context started with followed by the messages, in order. *)
Theorem ContextManagerPlugin_sliding_window n w msg0 msgs :
  Forall (fun msg => SessionID msg = SessionID msg0) msgs ->
  (length (history_of msg0 w)
   <= Z.to_nat (maxHistorySize (NewContextManagerPlugin n)))%nat ->
  history_of msg0 (fold_left (turn (NewContextManagerPlugin n)) msgs w) =
  last_n (Z.to_nat (maxHistorySize (NewContextManagerPlugin n)))
    (history_of msg0 w ++ msgs).
Proof.
  pose proof (NewContextManagerPlugin_positive n) as Hpos.
  set (p := NewContextManagerPlugin n) in *.
  intros Hall. revert w. induction Hall as [|msg msgs Hs _ IH]; intros w Hlen.
  - cbn [fold_left]. rewrite app_nil_r. unfold last_n.
    replace (_ - _)%nat with O by lia. reflexivity.
  - cbn [fold_left]. rewrite IH.
    + rewrite history_of_turn by (lia || done).
      rewrite last_n_last_n_app, <- app_assoc. reflexivity.
    + rewrite history_of_turn by (lia || done). rewrite last_n_length. lia.
Qed.

(** X12: on a context fresh from [NewContext] around a message, as the
    example programs make one for every message, the plugin finds no
    earlier state: the history it stores is that one message, with no
    preferences and the zero intent, whatever the session and whatever the
    size of the window. *)
Theorem ContextManagerPlugin_fresh_context n msg (e : Ext) :
  ContextManagerPlugin_Execute (NewContextManagerPlugin n)
    {| ctx := NewContext (VMessage msg); ext := e |} =
  ({| ctx :=
        {| Data := VMessage msg;
           Metadata :=
             {[ "conversation_state" :=
                  VConversationState
                    {| History := [msg]; UserPrefs := ∅;
                       LastIntent := {| Type_ := ""; Confidence := 0 |} |} ]};
           Errors := [];
           state :=
             {[ stateKey msg :=
                  VConversationState
                    {| History := [msg]; UserPrefs := ∅;
                       LastIntent := {| Type_ := ""; Confidence := 0 |} |} ]}
        |};
      ext := e |}, None).
Proof.
  pose proof (NewContextManagerPlugin_positive n) as Hpos.
  unfold ContextManagerPlugin_Execute.
  unfold GetData, GetState, Context_Get, NewContext. cbn [ctx ext Data state Metadata].
  rewrite !lookup_empty. cbn [History UserPrefs LastIntent newConversationState app].
  unfold limit. cbn [length].
  destruct (Z.ltb_spec (maxHistorySize (NewContextManagerPlugin n)) (Z.of_nat 1));
    [lia|].
  unfold Context_Set, SetState. cbn [Data Metadata Errors state].
  by rewrite !insert_empty.
Qed.

End ChatbotFacts.

(** ** The moderation plugins *)

Section ModerationFacts.

Import moderation.

Variable Ext : Type.
Variable weighted : ScoringPlugin -> float -> float -> float -> float.

Implicit Types (w : World val Ext) (c : Context val).
Implicit Types (s : ScoringPlugin) (d : DecisionRouterPlugin).
Implicit Types (score : ModerationScore).

(** A float compared with itself is equal to itself or not comparable. *)
Lemma SFcompare_self (f : SpecFloat.spec_float) :
  (f = SpecFloat.S754_nan /\ forall g, SpecFloat.SFcompare f g = None)
  \/ SpecFloat.SFcompare f f = Some Eq.
Proof.
  destruct f as [[]|[]| |[] m e]; cbn; auto;
    rewrite Z.compare_refl, Pos.compare_cont_refl; auto.
Qed.

Lemma float_ltb_irrefl (x : float) : (x <? x)%float = false.
Proof.
  rewrite FloatAxioms.ltb_spec. unfold SpecFloat.SFltb.
  by destruct (SFcompare_self (Prim2SF x)) as [[_ ->]| ->].
Qed.

Lemma float_ltb_nan (x y : float) :
  PrimFloat.is_nan x = true -> (x <? y)%float = false.
Proof.
  unfold PrimFloat.is_nan. rewrite FloatAxioms.eqb_spec, FloatAxioms.ltb_spec.
  unfold SpecFloat.SFeqb, SpecFloat.SFltb.
  destruct (SFcompare_self (Prim2SF x)) as [[_ Hn]| ->]; [|discriminate].
  by rewrite !Hn.
Qed.

(** The three decisions, and which one is not flagged. *)
Lemma decide_action_cases d score :
  Score (decide_action d score) = score
  /\ (Action (decide_action d score) = "approve"
      \/ Action (decide_action d score) = "review"
      \/ Action (decide_action d score) = "reject")
  /\ (Flagged (decide_action d score) = false
      <-> Action (decide_action d score) = "approve")
  /\ (Action (decide_action d score) = "approve"
      <-> (OverallScore score <? approveThreshold d)%float = true).
Proof.
  unfold decide_action.
  destruct (OverallScore score <? approveThreshold d)%float;
    [|destruct (OverallScore score <? reviewThreshold d)%float];
    cbn; repeat split; auto; discriminate.
Qed.

(** The first two stages never fail, and leave the score and the
    decision in the metadata. *)
Lemma scoring_then_decision s d w :
  snd (ScoringPlugin_Execute weighted s w) = None
  /\ snd (DecisionRouterPlugin_Execute d
            (fst (ScoringPlugin_Execute weighted s w))) = None
  /\ fst (DecisionRouterPlugin_Execute d
            (fst (ScoringPlugin_Execute weighted s w))) =
     {| ctx := scored_and_decided weighted s d (ctx w); ext := ext w |}.
Proof.
  unfold ScoringPlugin_Execute. cbv zeta. cbn [fst snd].
  split; [reflexivity|].
  unfold DecisionRouterPlugin_Execute, Context_Get.
  cbn [ctx ext Context_Set Metadata]. rewrite lookup_insert_eq.
  split; reflexivity.
Qed.

(** The handler on what they leave: the result, or the panic on the nil
    pointer. *)
Lemma handler_after_decision s d w (content : option Content) :
  GetData (ctx w) = VContentPtr content ->
  ActionHandlerPlugin_Execute
    {| ctx := scored_and_decided weighted s d (ctx w); ext := ext w |} =
  match content with
  | Some pointee =>
      ({| ctx := SetData (scored_and_decided weighted s d (ctx w))
                   (VResultPtr
                      (Some {| Content_ := pointee;
                               Decision :=
                                 decide_action d
                                   (computed_score weighted s (ctx w)) |}));
          ext := ext w |}, Returned None)
  | None =>
      ({| ctx := scored_and_decided weighted s d (ctx w); ext := ext w |},
       Panicked)
  end.
Proof.
  unfold ActionHandlerPlugin_Execute, GetData, Context_Get, scored_and_decided.
  cbn [ctx ext Context_Set Data Metadata]. intros ->.
  rewrite lookup_insert_eq. by destruct content.
Qed.

(** X13: the last three stages of the moderation pipeline, run in that
    order, under either strategy and whatever the metadata held.  On a
    context whose data is a [*Content] that is not nil they never fail:
    [Execute] returns nil after invoking all three, the pipeline, the
    errors and the state map are as before, and the data ends as a
    [*ModerationResult] around the same content whose decision is the one
    stored under moderation_decision.  The decision's score carries the
    three scores found in the metadata, zero for one that is missing or
    not a [float64]; the action is approve, review or reject, approve
    exactly when the overall score is below the approve threshold, and the
    content is flagged exactly when the action is not approve.  On the nil
    [*Content] the first two stages store the score and the decision and
    the action handler then panics: [Execute] does not return, and the
    data is still the nil pointer. *)
Theorem Moderation_tail_succeeds (p : GPipeline val Ext) s d w :
  gplugins p = tail_plugins weighted s d ->
  (forall pointee : Content,
     GetData (ctx w) = VContentPtr (Some pointee) ->
     fst (GExecute (gboot p w)) = Returned None
     /\ ginvoked (snd (GExecute (gboot p w))) = [0; 1; 2]%Z
     /\ gpipe (snd (GExecute (gboot p w))) = p
     /\ Errors (ctx (gworld (snd (GExecute (gboot p w))))) = Errors (ctx w)
     /\ state (ctx (gworld (snd (GExecute (gboot p w))))) = state (ctx w)
     /\ ext (gworld (snd (GExecute (gboot p w)))) = ext w
     /\ exists result,
          GetData (ctx (gworld (snd (GExecute (gboot p w))))) =
            VResultPtr (Some result)
          /\ Content_ result = pointee
          /\ Context_Get VNil (ctx (gworld (snd (GExecute (gboot p w)))))
               "moderation_decision" = (VDecision (Decision result), true)
          /\ ProfanityScore (Score (Decision result)) =
             scoreAt (ctx w) "profanity_score"
          /\ SpamScore (Score (Decision result)) =
             scoreAt (ctx w) "spam_score"
          /\ ToxicityScore (Score (Decision result)) =
             scoreAt (ctx w) "toxicity_score"
          /\ (Action (Decision result) = "approve"
              \/ Action (Decision result) = "review"
              \/ Action (Decision result) = "reject")
          /\ (Action (Decision result) = "approve"
              <-> (OverallScore (Score (Decision result))
                   <? approveThreshold d)%float = true)
          /\ (Flagged (Decision result) = false
              <-> Action (Decision result) = "approve"))
  /\ (GetData (ctx w) = VContentPtr None ->
      fst (GExecute (gboot p w)) = Panicked
      /\ ginvoked (snd (GExecute (gboot p w))) = [0; 1; 2]%Z
      /\ gworld (snd (GExecute (gboot p w))) =
         {| ctx := scored_and_decided weighted s d (ctx w); ext := ext w |}
      /\ GetData (ctx (gworld (snd (GExecute (gboot p w))))) =
         VContentPtr None).
Proof.
  intros Hp.
  destruct (scoring_then_decision s d w) as (Hs1 & Hs2 & Hw2).
  assert (Hrun : forall content : option Content,
    GetData (ctx w) = VContentPtr content ->
    GExecute (gboot p w) =
    (snd (ActionHandlerPlugin_Execute
            {| ctx := scored_and_decided weighted s d (ctx w);
               ext := ext w |}),
     {| gpipe := p;
        gworld := fst (ActionHandlerPlugin_Execute
                         {| ctx := scored_and_decided weighted s d (ctx w);
                            ext := ext w |});
        ginvoked := [0; 1; 2]%Z |})).
  { intros content Hd. unfold GExecute. cbn [gboot gpipe]. rewrite Hp.
    unfold tail_plugins.
    rewrite GExecute_loop_cons, gcall_glift.
    cbn [fst snd gworld gboot gpipe ginvoked]. rewrite Hs1.
    rewrite GExecute_loop_cons, gcall_glift.
    cbn [fst snd gworld gpipe ginvoked]. rewrite Hs2, Hw2.
    rewrite GExecute_loop_cons. unfold gcall. cbn [gexec gworld gpipe ginvoked].
    rewrite (handler_after_decision s d w content Hd).
    destruct p as [gp gs]. destruct content; reflexivity. }
  split.
  - intros pointee Hd. rewrite (Hrun _ Hd), (handler_after_decision s d w _ Hd).
    cbn [fst snd gpipe gworld ginvoked ctx ext].
    unfold GetData, Context_Get, scored_and_decided.
    cbn [SetData Context_Set Data Metadata Errors state].
    rewrite lookup_insert_eq.
    destruct (decide_action_cases d (computed_score weighted s (ctx w)))
      as (Hsc & Hact & Hfl & Hap).
    repeat (split; [reflexivity|]).
    eexists. split; [reflexivity|]. cbn [Content_ Decision]. rewrite Hsc.
    repeat split; try reflexivity; try apply Hfl; try apply Hap; exact Hact.
  - intros Hd. rewrite (Hrun _ Hd), (handler_after_decision s d w _ Hd).
    cbn [fst snd gworld ginvoked ctx]. repeat split.
    unfold GetData, scored_and_decided in *. cbn [Context_Set Data]. exact Hd.
Qed.

(** The router either finds a score and succeeds, or fails and returns
    the world it was given. *)
Lemma DecisionRouterPlugin_Execute_cases d w :
  (exists score,
     Metadata (ctx w) !! "moderation_score" = Some (VScore score)
     /\ snd (DecisionRouterPlugin_Execute d w) = None)
  \/ ((forall score,
         Metadata (ctx w) !! "moderation_score" <> Some (VScore score))
      /\ exists e, DecisionRouterPlugin_Execute d w = (w, Some e)).
Proof.
  unfold DecisionRouterPlugin_Execute, Context_Get.
  destruct (Metadata (ctx w) !! "moderation_score") as [[| | |score| | |]|];
    try (right; split; [intros ? [=]|by eexists]).
  left. by exists score.
Qed.

(** The handler succeeds, or panics on the nil pointer, or fails; and it
    changes the world only when it succeeds. *)
Lemma ActionHandlerPlugin_Execute_cases w :
  (exists pointee decision,
     GetData (ctx w) = VContentPtr (Some pointee)
     /\ Metadata (ctx w) !! "moderation_decision" = Some (VDecision decision)
     /\ snd (ActionHandlerPlugin_Execute w) = Returned None)
  \/ (exists decision,
        GetData (ctx w) = VContentPtr None
        /\ Metadata (ctx w) !! "moderation_decision" =
           Some (VDecision decision)
        /\ ActionHandlerPlugin_Execute w = (w, Panicked))
  \/ (((forall content, GetData (ctx w) <> VContentPtr content)
       \/ (forall decision,
             Metadata (ctx w) !! "moderation_decision"
             <> Some (VDecision decision)))
      /\ exists e, ActionHandlerPlugin_Execute w = (w, Returned (Some e))).
Proof.
  unfold ActionHandlerPlugin_Execute, Context_Get, GetData.
  destruct (Data (ctx w)) as [|content| | | | |];
    try (right; right; split; [left; intros ? [=]|by eexists]).
  destruct (Metadata (ctx w) !! "moderation_decision")
    as [[| | | |decision| |]|];
    try (right; right; split; [right; intros ? [=]|by eexists]).
  destruct content as [pointee|].
  - left. by exists pointee, decision.
  - right. left. by exists decision.
Qed.

(** X14: the decision router and the action handler fail only for want
    of their input, and then change nothing.  The router returns an error
    exactly when the metadata holds no [ModerationScore] under
    moderation_score; the handler exactly when the data is no [*Content]
    or the metadata holds no [ModerationDecision] under
    moderation_decision.  Either one, when it returns an error, leaves the
    context and everything else as it found them.  The handler panics
    exactly when the data is the nil [*Content] and a decision is stored,
    and has changed nothing by then. *)
Theorem Moderation_failures_change_nothing d w :
  (is_Some (snd (DecisionRouterPlugin_Execute d w))
     <-> forall score,
           Metadata (ctx w) !! "moderation_score" <> Some (VScore score))
  /\ (is_Some (snd (DecisionRouterPlugin_Execute d w)) ->
      fst (DecisionRouterPlugin_Execute d w) = w)
  /\ (is_Some (returned_error (snd (ActionHandlerPlugin_Execute w)))
     <-> (forall content, GetData (ctx w) <> VContentPtr content)
         \/ (forall decision,
               Metadata (ctx w) !! "moderation_decision"
               <> Some (VDecision decision)))
  /\ (is_Some (returned_error (snd (ActionHandlerPlugin_Execute w))) ->
      fst (ActionHandlerPlugin_Execute w) = w)
  /\ (snd (ActionHandlerPlugin_Execute w) = Panicked
     <-> GetData (ctx w) = VContentPtr None
         /\ exists decision,
              Metadata (ctx w) !! "moderation_decision" =
              Some (VDecision decision))
  /\ (snd (ActionHandlerPlugin_Execute w) = Panicked ->
      fst (ActionHandlerPlugin_Execute w) = w).
Proof.
  split; [|split; [|split; [|split; [|split]]]].
  - destruct (DecisionRouterPlugin_Execute_cases d w)
      as [(score & Hs & Hr)|[Hs (e & Hr)]]; rewrite Hr; cbn [snd].
    + split; [by intros [? [=]]|]. intros H. by destruct (H score).
    + split; [done|by eexists].
  - destruct (DecisionRouterPlugin_Execute_cases d w)
      as [(score & Hs & Hr)|[Hs (e & Hr)]]; rewrite Hr; cbn [fst snd].
    + by intros [? [=]].
    + done.
  - destruct (ActionHandlerPlugin_Execute_cases w)
      as [(pointee & decision & Hc & Hd & Ha)
         |[(decision & Hc & Hd & Ha)|[Hcd (e & Ha)]]];
      rewrite Ha; cbn [snd returned_error].
    + split; [by intros [? [=]]|].
      intros [H|H]; [by destruct (H (Some pointee))|by destruct (H decision)].
    + split; [by intros [? [=]]|].
      intros [H|H]; [by destruct (H None)|by destruct (H decision)].
    + split; [done|by eexists].
  - destruct (ActionHandlerPlugin_Execute_cases w)
      as [(pointee & decision & Hc & Hd & Ha)
         |[(decision & Hc & Hd & Ha)|[Hcd (e & Ha)]]];
      rewrite Ha; cbn [fst snd returned_error]; try done;
      by intros [? [=]].
  - destruct (ActionHandlerPlugin_Execute_cases w)
      as [(pointee & decision & Hc & Hd & Ha)
         |[(decision & Hc & Hd & Ha)|[Hcd (e & Ha)]]];
      rewrite Ha; cbn [snd].
    + split; [done|]. intros [Hn _]. congruence.
    + split; [|done]. intros _. split; [done|by exists decision].
    + split; [done|]. intros [Hn [decision Hd]].
      destruct Hcd as [H|H]; [by destruct (H None)|by destruct (H decision)].
  - destruct (ActionHandlerPlugin_Execute_cases w)
      as [(pointee & decision & Hc & Hd & Ha)
         |[(decision & Hc & Hd & Ha)|[Hcd (e & Ha)]]];
      rewrite Ha; cbn [fst snd]; done.
Qed.

(** X15: the thresholds are compared with [<] on [float64], so the
    decision is never approve, and the content is flagged, when the
    overall score equals the approve threshold or is not a number; a score
    that is not a number is rejected, whatever the thresholds. *)
Theorem DecisionRouter_boundaries d score :
  (OverallScore score = approveThreshold d ->
   Action (decide_action d score) <> "approve"
   /\ Flagged (decide_action d score) = true)
  /\ (PrimFloat.is_nan (OverallScore score) = true ->
      Action (decide_action d score) = "reject"
      /\ Flagged (decide_action d score) = true).
Proof.
  split.
  - intros He. unfold decide_action. rewrite He, float_ltb_irrefl.
    by destruct (approveThreshold d <? reviewThreshold d)%float.
  - intros Hn. unfold decide_action. by rewrite !float_ltb_nan.
Qed.

End ModerationFacts.

(** ** The handler around a pipeline *)

Section HttpFacts.

Import http.

Variable any : Type.
Variable Ext : Type.
Variable ofString : string -> any.
Variable ofStrings : list string -> any.
Variable ofMap : gmap string any -> any.
Variable Unmarshal : string -> option any.
Variable Marshal : any -> option string.
Variable quote : string -> string.

Implicit Types (h : Pipeline any Ext) (r : Request) (e : Ext) (data : any).

Local Abbreviation serving := (ServeHTTP ofString ofStrings ofMap Unmarshal Marshal quote).
Local Abbreviation context_of := (request_context ofString ofStrings ofMap).
Local Abbreviation data_of := (request_data ofMap Unmarshal).

(** [ServeHTTP] on a request whose body gives data is the rest of the
    handler on that data. *)
Lemma ServeHTTP_serve h r e data :
  data_of r = Some data ->
  serving h r e = serve ofString ofStrings ofMap Marshal quote h r data e.
Proof.
  unfold request_data, ServeHTTP. destruct (Body r) as [body|]; [|done].
  destruct (0 <? Z.of_nat (String.length body))%Z.
  - by intros ->.
  - by intros [= <-].
Qed.

Lemma request_context_Errors r data : Errors (context_of r data) = [].
Proof. reflexivity. Qed.

(** X16: the handler around an [AbortOnError] pipeline whose plugins do
    not write the context's errors, on a request whose body can be read
    and parsed.  Either every plugin returns nil, and the handler answers
    200 with the encoded data the plugins left; or some plugin is the
    first to fail, and the handler's only call is [http.Error] with status
    500 and the message plugin K failed: followed by the plugin's own
    message, K its index.  It never answers 422. *)
Theorem ServeHTTP_abort h r e data :
  errorStrategy h = AbortOnError ->
  Forall keeps_errors (plugins h) ->
  data_of r = Some data ->
  (exists w',
     run_ok (plugins h) {| ctx := context_of r data; ext := e |} = Some w'
     /\ serving h r e = (ok_calls Marshal (GetData (ctx w')), ext w'))
  \/
  (exists pre q post w1 w2 err,
     plugins h = pre ++ q :: post
     /\ run_ok pre {| ctx := context_of r data; ext := e |} = Some w1
     /\ q w1 = (w2, Some err)
     /\ serving h r e =
        ([HttpError
            ("plugin " ++ decimal (Z.of_nat (length pre)) ++ " failed: "
             ++ Error quote err)
            StatusInternalServerError],
         ext w2)).
Proof.
  intros Hs Hk Hdata. rewrite (ServeHTTP_serve h r e data Hdata).
  unfold serve.
  pose proof (Execute_loop_abort_errors any Ext (plugins h) 0
                (boot h {| ctx := context_of r data; ext := e |}) Hs Hk) as Herrs.
  unfold Execute in *. cbn [boot pipe] in *.
  destruct (run_ok_cases any Ext (plugins h)
              {| ctx := context_of r data; ext := e |})
    as [[w' Hok]|(pre & q & post & w1 & w2 & err & Hp & Hpre & Hq)].
  - left. exists w'. split; [exact Hok|]. revert Herrs.
    rewrite <- (app_nil_r (plugins h)).
    rewrite (Execute_loop_ok_prefix any Ext (plugins h) [] 0
               (boot h {| ctx := context_of r data; ext := e |}) w' Hok).
    cbn [Execute_loop ret snd world boot ctx]. intros ->.
    reflexivity.
  - right. exists pre, q, post, w1, w2, err. repeat (split; [assumption|]).
    rewrite Hp.
    rewrite (Execute_loop_ok_prefix any Ext pre (q :: post) 0
               (boot h {| ctx := context_of r data; ext := e |}) w1 Hpre).
    rewrite Execute_loop_cons. cbn [world pipe invoked boot].
    rewrite Hq, Hs. cbn [fst snd world]. by rewrite Z.add_0_l.
Qed.

(** X17: the handler around a [ContinueOnError] pipeline whose plugins do
    not write the context's errors, on a request whose body can be read
    and parsed, never answers 500 for a failing plugin.  When no plugin
    fails it answers 200 with the encoded data; otherwise it answers 422
    with one message for each plugin that failed, by ascending index, each
    message plugin K failed: followed by the plugin's own message. *)
Theorem ServeHTTP_continue h r e data :
  errorStrategy h = ContinueOnError ->
  Forall keeps_errors (plugins h) ->
  data_of r = Some data ->
  serving h r e =
  (match failures 0 (plugins h) {| ctx := context_of r data; ext := e |} with
   | [] =>
       ok_calls Marshal
         (GetData (ctx (world (snd
            (Execute (boot h {| ctx := context_of r data; ext := e |}))))))
   | fs =>
       unprocessable_calls ofStrings ofMap Marshal
         (map (fun f =>
                 "plugin " ++ decimal (fst f) ++ " failed: "
                 ++ Error quote (snd f))%string fs)
   end,
   ext (world (snd
     (Execute (boot h {| ctx := context_of r data; ext := e |}))))).
Proof.
  intros Hs Hk Hdata. rewrite (ServeHTTP_serve h r e data Hdata).
  unfold serve.
  pose proof (Execute_loop_continue_errors any Ext (plugins h) 0
                (boot h {| ctx := context_of r data; ext := e |}) Hs Hk) as Herrs.
  destruct (Execute_loop_continue any Ext (plugins h) 0
              (boot h {| ctx := context_of r data; ext := e |}) Hs) as [Hnil _].
  unfold Execute in *. cbn [boot pipe] in *.
  destruct (Execute_loop 0 (plugins h) _) as [res m] eqn:Hrun.
  cbn [fst snd] in *. subst res. rewrite Herrs.
  cbn [boot world ctx]. rewrite request_context_Errors. cbn [app].
  destruct (failures 0 (plugins h) _) as [|f fs]; [reflexivity|].
  cbn [map length]. unfold formatErrors, unprocessable_calls.
  destruct (Z.ltb_spec 0 (Z.of_nat (S (length (map wrap fs))))); [|lia].
  cbn [map]. rewrite map_map. reflexivity.
Qed.

End HttpFacts.

(** ** The further facts on the samples *)

(** [Execute_abort_cases] on [strict_pipeline]: the second outcome, with
    [boom] at index 1 the first to fail. *)
Lemma Execute_abort_cases_sample :
  (exists w',
     run_ok (plugins strict_pipeline) (fresh "World") = Some w'
     /\ Execute (boot strict_pipeline (fresh "World")) =
        (None,
         {| pipe := strict_pipeline; world := w';
            invoked := indices 0 (length (plugins strict_pipeline)) |}))
  \/
  (exists pre q post w1 w2 e,
     plugins strict_pipeline = pre ++ q :: post
     /\ run_ok pre (fresh "World") = Some w1
     /\ q w1 = (w2, Some e)
     /\ Execute (boot strict_pipeline (fresh "World")) =
        (Some (PipelineError (Z.of_nat (length pre)) e),
         {| pipe := strict_pipeline; world := w2;
            invoked := indices 0 (S (length pre)) |})).
Proof.
  apply (Execute_abort_cases string nat strict_pipeline (fresh "World")).
  reflexivity.
Defined.

(** [Execute_continue_accumulates] on a second run of [lenient_pipeline]
    on the context its first run left: the two errors of the first run
    stay in front of the two of the second. *)
Lemma Execute_continue_accumulates_sample :
  Errors (ctx (world (snd (Execute (boot lenient_pipeline
    (world (snd (Execute (boot lenient_pipeline (fresh "World"))))))))))
  = [PipelineError 0 (PluginFailure "boom");
     PipelineError 2 (PluginFailure "boom");
     PipelineError 0 (PluginFailure "boom");
     PipelineError 2 (PluginFailure "boom")].
Proof.
  apply (Execute_continue_accumulates string nat lenient_pipeline
           (world (snd (Execute (boot lenient_pipeline (fresh "World")))))).
  - reflexivity.
  - repeat constructor.
Defined.

(** [BuildPipeline_stable] on [sample_registry]: b, a resolves to [tick],
    [greet] also after registering [boom] under c and, in vain, under a. *)
Lemma BuildPipeline_stable_sample :
  fst (BuildPipeline ["b"; "a"] AbortOnError
         (register_all [("c", boom); ("a", boom)] sample_registry)) =
  Ok {| plugins := [tick; greet]; errorStrategy := AbortOnError |}.
Proof.
  apply (BuildPipeline_stable string nat ["b"; "a"] AbortOnError
           sample_registry).
  reflexivity.
Defined.

(** [BuildPipeline_inv] on [sample_registry]: the error for a, missing, b
    names missing. *)
Lemma BuildPipeline_inv_sample :
  exists missing,
    missing ∈ ["a"; "missing"; "b"]
    /\ reg_plugins sample_registry !! missing = None
    /\ ErrBuildPipeline (ErrNotFound "missing") =
       ErrBuildPipeline (ErrNotFound missing).
Proof.
  apply (proj2 (proj2 (BuildPipeline_inv string nat ["a"; "missing"; "b"]
                         AbortOnError sample_registry))).
  reflexivity.
Defined.

(** [ContextManagerPlugin_Execute_spec] on a context without a message:
    the error, and the context as it was. *)
Lemma ContextManagerPlugin_Execute_spec_sample :
  chatbot.ContextManagerPlugin_Execute (chatbot.NewContextManagerPlugin 10)
    no_message =
  (no_message, Some (PluginFailure "expected Message type in context data")).
Proof.
  apply (proj2 (ContextManagerPlugin_Execute_spec nat 10 no_message)).
  intros msg. discriminate.
Defined.

(** [ContextManagerPlugin_sliding_window] with a window of two: after
    three turns on one context the history is the last two messages. *)
Lemma ContextManagerPlugin_sliding_window_sample :
  chatbot.history_of msg1
    (fold_left (chatbot.turn (chatbot.NewContextManagerPlugin 2))
       [msg1; msg2; msg3]
       {| ctx := NewContext chatbot.VNil; ext := O |}) =
  [msg2; msg3].
Proof.
  apply (ContextManagerPlugin_sliding_window nat 2
           {| ctx := NewContext chatbot.VNil; ext := O |} msg1
           [msg1; msg2; msg3]).
  - repeat constructor.
  - vm_compute. lia.
Defined.

(** [Moderation_tail_succeeds] on [scored_content] and on [scored_nil]:
    a profanity score of one weighs 0.4, which is sent to review and
    flagged; on the nil pointer the run panics. *)
Lemma Moderation_tail_succeeds_sample :
  (fst (GExecute (gboot moderation_tail scored_content)) = Returned None
   /\ exists result,
        GetData (ctx (gworld (snd (GExecute
          (gboot moderation_tail scored_content)))))
        = moderation.VResultPtr (Some result)
        /\ moderation.Content_ result = sample_content
        /\ moderation.Action (moderation.Decision result) = "review"
        /\ moderation.Flagged (moderation.Decision result) = true)
  /\ fst (GExecute (gboot moderation_tail scored_nil)) = Panicked.
Proof.
  split.
  - destruct (proj1 (Moderation_tail_succeeds nat weighted_unfused
                       moderation_tail moderation.NewScoringPlugin
                       moderation.NewDecisionRouterPlugin scored_content
                       eq_refl) sample_content eq_refl)
      as (Hr & _ & _ & _ & _ & _ & result & Hd & Hc & _).
    split; [exact Hr|]. exists result. split; [exact Hd|]. split; [exact Hc|].
    vm_compute in Hd. injection Hd as <-. split; reflexivity.
  - apply (proj2 (Moderation_tail_succeeds nat weighted_unfused
                    moderation_tail moderation.NewScoringPlugin
                    moderation.NewDecisionRouterPlugin scored_nil eq_refl)).
    reflexivity.
Defined.

(** [DecisionRouter_boundaries] with the thresholds of
    [NewDecisionRouterPlugin]: a score that is not a number is
    rejected. *)
Lemma DecisionRouter_boundaries_sample :
  moderation.Action
    (moderation.decide_action moderation.NewDecisionRouterPlugin nan_score)
  = "reject"
  /\ moderation.Flagged
       (moderation.decide_action moderation.NewDecisionRouterPlugin nan_score)
     = true.
Proof.
  apply (proj2 (DecisionRouter_boundaries moderation.NewDecisionRouterPlugin
                  nan_score)).
  reflexivity.
Defined.

(** [ServeHTTP_abort] around [strict_pipeline]: [boom] at index 1 fails
    and the handler answers 500 with its message. *)
Lemma ServeHTTP_abort_sample :
  (exists w',
     run_ok (plugins strict_pipeline)
       {| ctx := http.request_context (fun s => s) (String.concat ",")
                   (fun _ => "{}"%string) sample_request "World";
          ext := O |} = Some w'
     /\ sample_ServeHTTP strict_pipeline sample_request O =
        (http.ok_calls (fun data => Some data) (GetData (ctx w')), ext w'))
  \/
  (exists pre q post w1 w2 err,
     plugins strict_pipeline = pre ++ q :: post
     /\ run_ok pre
          {| ctx := http.request_context (fun s => s) (String.concat ",")
                      (fun _ => "{}"%string) sample_request "World";
             ext := O |} = Some w1
     /\ q w1 = (w2, Some err)
     /\ sample_ServeHTTP strict_pipeline sample_request O =
        ([http.HttpError
            ("plugin " ++ http.decimal (Z.of_nat (length pre)) ++ " failed: "
             ++ http.Error (fun s => s) err)
            http.StatusInternalServerError],
         ext w2)).
Proof.
  apply (ServeHTTP_abort string nat (fun s => s) (String.concat ",")
           (fun _ => "{}"%string) (fun body => Some body)
           (fun data => Some data) (fun s => s)
           strict_pipeline sample_request O "World").
  - reflexivity.
  - repeat constructor.
  - reflexivity.
Defined.

(** [ServeHTTP_continue] around [lenient_pipeline]: the handler answers
    422 with the messages of the plugins at indices 0 and 2, and [tick]
    has counted. *)
Lemma ServeHTTP_continue_sample :
  sample_ServeHTTP lenient_pipeline sample_request O =
  ([http.HeaderSet "Content-Type" "application/json";
    http.WriteHeader 422; http.EncoderWrite "{}"], 1%nat).
Proof.
  apply (ServeHTTP_continue string nat (fun s => s) (String.concat ",")
           (fun _ => "{}"%string) (fun body => Some body)
           (fun data => Some data) (fun s => s)
           lenient_pipeline sample_request O "World").
  - reflexivity.
  - repeat constructor.
  - reflexivity.
Defined.
